(** * Synthetic EGF generation with comparisons

    A shallow embedding of [scripts/create_test_egf_with_comparisons.py]
    and the properties of its synthesis algorithm: noisy grades, the
    11-bucket grade distribution, the pairing of each submission with its
    next two successors, the accuracy-controlled winner, and the external
    anchor comparisons.

    Python integers are [Z], Python floats are IEEE binary64 primitive
    floats, strings are [string], lists are [list].  The process-wide
    state of the [random] module, the artifact under construction and the
    saved file are threaded through an exception-and-state monad.  Console
    output ([print]) is not modelled. *)

From Stdlib Require Import ZArith Floats Ascii String Lia.
From stdpp Require Import base tactics option list list_numbers strings pretty.

Set Warnings "-inexact-float".
Local Open Scope Z_scope.

(** ** Python built-ins used by the script *)

Module Py.

(** Exceptions of a run: [IndexError] from indexing a list, [TypeError],
    with its message, from [random.seed]. *)
Inductive exn : Type := IndexError | TypeError (message : string).

Definition len {A} (l : list A) : Z := Z.of_nat (length l).

(** Position denoted by a Python index [i] in a sequence of length [n]:
    non-negative indices count from the front, negative ones from the
    back, anything else is out of range. *)
Definition norm_index (n i : Z) : option nat :=
  if (0 <=? i) && (i <? n) then Some (Z.to_nat i)
  else if (i <? 0) && (- n <=? i) then Some (Z.to_nat (i + n))
  else None.

(** [l[i]] *)
Definition getitem {A} (l : list A) (i : Z) : exn + A :=
  match norm_index (len l) i with
  | Some k => match l !! k with Some x => inr x | None => inl IndexError end
  | None => inl IndexError
  end.

(** [l[i] = v] *)
Definition setitem {A} (l : list A) (i : Z) (v : A) : exn + list A :=
  match norm_index (len l) i with
  | Some k => inr (<[k := v]> l)
  | None => inl IndexError
  end.

(** [range(lo, hi)] *)
Definition range (lo hi : Z) : list Z := seqZ lo (hi - lo).

(** [enumerate(l)] *)
Definition enumerate {A} (l : list A) : list (Z * A) :=
  zip (seqZ 0 (len l)) l.

(** [str(i)] for an integer. *)
Definition str (i : Z) : string := pretty i.

(** [f"{i:03d}"]: sign-aware zero padding to width 3. *)
Definition fmt_03d (i : Z) : string :=
  let sign := if i <? 0 then "-" else "" in
  let digits := pretty (Z.abs i) in
  let pad := (3 - String.length sign - String.length digits)%nat in
  sign +:+ String.concat "" (replicate pad "0") +:+ digits.

(** [c.upper()] on one character of the ASCII range. *)
Definition upper_ascii (c : ascii) : ascii :=
  let n := nat_of_ascii c in
  if (97 <=? n)%nat && (n <=? 122)%nat then ascii_of_nat (n - 32) else c.

(** [s.upper()] *)
Fixpoint upper (s : string) : string :=
  match s with
  | EmptyString => EmptyString
  | String c s' => String (upper_ascii c) (upper s')
  end.

End Py.

Import Py.

(** ** Data model *)

(** A submission of the EDF: only [id] and [grade] are read. *)
Record Submission : Type := {
  sub_id : string;
  sub_grade : Z
}.

Record Message : Type := {
  role : string;
  content : string
}.

(** Keyword arguments of [egf.add_llm_call]. *)
Record CallRecord : Type := {
  call_id : string;
  timestamp : Z;
  model : string;
  temperature : float;
  max_tokens : Z;
  messages : list Message;
  output_content : string;
  stop_reason : string;
  input_tokens : Z;
  output_tokens : Z;
  latency_ms : Z
}.

(** Keyword arguments of [egf.add_grade_result]. *)
Record GradeResult : Type := {
  gr_submission_id : string;
  gr_grade : Z;
  grade_distribution : list float;
  gr_call_ids : list string;
  graded_at : Z
}.

(** Keyword arguments of [egf.add_comparison]. *)
Record Comparison : Type := {
  comparison_id : string;
  submission_a : string;
  submission_b : string;
  winner : string;
  cmp_call_ids : list string;
  compared_at : Z;
  confidence : float;
  justification : string
}.

(** Modelled from the spec: the [EGF] artifact builder of the [egf]
    package, which the script imports.  The artifact holds a reference to
    the submission set, a description, and the ordered collections of
    call records, grade results and comparisons; each [add_*] call
    appends one entry. *)
Record EGF : Type := {
  edf_ref : string;
  egf_description : string;
  llm_calls : list CallRecord;
  grade_results : list GradeResult;
  comparisons : list Comparison
}.

Definition reference_edf (edf_path description : string) : EGF :=
  {| edf_ref := edf_path; egf_description := description;
     llm_calls := []; grade_results := []; comparisons := [] |}.

Definition egf_add_llm_call (c : CallRecord) (e : EGF) : EGF :=
  {| edf_ref := edf_ref e; egf_description := egf_description e;
     llm_calls := llm_calls e ++ [c];
     grade_results := grade_results e; comparisons := comparisons e |}.

Definition egf_add_grade_result (g : GradeResult) (e : EGF) : EGF :=
  {| edf_ref := edf_ref e; egf_description := egf_description e;
     llm_calls := llm_calls e;
     grade_results := grade_results e ++ [g]; comparisons := comparisons e |}.

Definition egf_add_comparison (c : Comparison) (e : EGF) : EGF :=
  {| edf_ref := edf_ref e; egf_description := egf_description e;
     llm_calls := llm_calls e;
     grade_results := grade_results e; comparisons := comparisons e ++ [c] |}.

(** ** The random source

    The functions of Python's [random] module that the script calls, as
    transitions on the state of the module's generator. *)

Class RandomSource (G : Type) : Type := {
  rs_seed : Z -> G;                                   (* random.seed(n)       *)
  rs_randint : Z -> Z -> G -> Z * G;                  (* random.randint(a, b) *)
  rs_choice : forall {A : Type}, A -> list A -> G -> A * G;
                                     (* random.choice([x, *xs]) *)
  rs_random : G -> float * G;                         (* random.random()      *)
  rs_uniform : float -> float -> G -> float * G       (* random.uniform(a, b) *)
}.

(** The documented ranges of the draws.  How the values are distributed
    within these ranges is left to the generator. *)
Class RandomSourceSpec (G : Type) `{RandomSource G} : Prop := {
  rs_randint_range : forall a b g,
    a <= b -> a <= fst (rs_randint a b g) <= b;
  rs_choice_elem : forall {A : Type} (x : A) xs g,
    fst (rs_choice x xs g) ∈ x :: xs;
  rs_random_range : forall g,
    (0 <=? fst (rs_random g))%float = true /\
    (fst (rs_random g) <? 1)%float = true
}.

(** ** A concrete random source

    A 64-bit linear congruential generator.  [random()] reads its value
    from a fixed table of floats in [0, 1).  It serves to run the script
    on concrete inputs. *)

Module Lcg.

Definition next (s : Z) : Z :=
  (6364136223846793005 * s + 1442695040888963407) mod 2 ^ 64.

Definition bits (s : Z) : Z := s / 2 ^ 33.

Definition unit_table : list float :=
  [0.05; 0.15; 0.25; 0.35; 0.45; 0.55; 0.65; 0.75; 0.85; 0.95]%float.

Definition randint (a b s : Z) : Z * Z :=
  let s' := next s in (a + bits s' mod (b - a + 1), s').

Definition choice {A} (x : A) (xs : list A) (s : Z) : A * Z :=
  let s' := next s in
  (nth (Z.to_nat (bits s' mod len (x :: xs))) (x :: xs) x, s').

Definition random (s : Z) : float * Z :=
  let s' := next s in
  (nth (Z.to_nat (bits s' mod 10)) unit_table 0.05%float, s').

Definition uniform (a b : float) (s : Z) : float * Z :=
  let (r, s') := random s in ((a + (b - a) * r)%float, s').

#[global] Instance source : RandomSource Z := {|
  rs_seed := fun n => n mod 2 ^ 64;
  rs_randint := randint;
  rs_choice := @choice;
  rs_random := random;
  rs_uniform := uniform
|}.

End Lcg.

(** ** The exception-and-state monad of the script *)

(** Everything a run reads and writes: the generator of the [random]
    module, the artifact [egf], the counter [comparison_count], and the
    file written by [egf.save], if any. *)
Record World (G : Type) : Type := {
  rng : G;
  egf : EGF;
  comparison_count : Z;
  saved : option (string * EGF)
}.
Arguments rng {G} _.
Arguments egf {G} _.
Arguments comparison_count {G} _.
Arguments saved {G} _.

Definition set_rng {G} (g : G) (w : World G) : World G :=
  {| rng := g; egf := egf w; comparison_count := comparison_count w;
     saved := saved w |}.
Definition set_egf {G} (e : EGF) (w : World G) : World G :=
  {| rng := rng w; egf := e; comparison_count := comparison_count w;
     saved := saved w |}.
Definition set_comparison_count {G} (c : Z) (w : World G) : World G :=
  {| rng := rng w; egf := egf w; comparison_count := c; saved := saved w |}.
Definition set_saved {G} (f : option (string * EGF)) (w : World G) : World G :=
  {| rng := rng w; egf := egf w; comparison_count := comparison_count w;
     saved := f |}.

(** A statement either completes with a value or raises; the state
    changes made before a raise persist. *)
Definition M (G A : Type) : Type := World G -> (exn + A) * World G.

#[global] Instance exn_ret : MRet (sum exn) := fun A a => inr a.
#[global] Instance exn_bind : MBind (sum exn) := fun A B f m =>
  match m with inr a => f a | inl e => inl e end.

#[global] Instance M_ret {G} : MRet (M G) := fun A a w => (inr a, w).
#[global] Instance M_bind {G} : MBind (M G) := fun A B f m w =>
  match m w with
  | (inr a, w') => f a w'
  | (inl e, w') => (inl e, w')
  end.

Definition lift {G A} (r : exn + A) : M G A := fun w => (r, w).
Definition gets {G A} (f : World G -> A) : M G A := fun w => (inr (f w), w).
Definition modify {G} (f : World G -> World G) : M G unit :=
  fun w => (inr tt, f w).
Definition draw {G A} (f : G -> A * G) : M G A :=
  fun w => let (a, g) := f (rng w) in (inr a, set_rng g w).

(** [for x in l: body(x)] *)
Fixpoint for_each {G A} (l : list A) (body : A -> M G unit) : M G unit :=
  match l with
  | [] => mret tt
  | x :: l' => body x ;; for_each l' body
  end.

(** ** The script *)

Section Script.
Context {G : Type} `{RandomSource G}.

(** The three [egf.add_*] calls and [egf.save], acting on the artifact
    held in the variable [egf]. *)
Definition add_llm_call (c : CallRecord) : M G unit :=
  modify (fun w => set_egf (egf_add_llm_call c (egf w)) w).
Definition add_grade_result (g : GradeResult) : M G unit :=
  modify (fun w => set_egf (egf_add_grade_result g (egf w)) w).
Definition add_comparison (c : Comparison) : M G unit :=
  modify (fun w => set_egf (egf_add_comparison c (egf w)) w).
Definition save (path : string) : M G unit :=
  modify (fun w => set_saved (Some (path, egf w)) w).

(** Line 46: [f"Grade: {grade}\n\nJustification: ..."]. *)
Definition grade_text (grade : Z) : string :=
  "Grade: " +:+ str grade +:+
  String "010" (String "010"
    "Justification: The submission demonstrates...").

(** Lines 37-51: the call record of the grading of submission [i]. *)
Definition grade_call (timestamp i : Z) (sub : Submission) : CallRecord :=
  {| call_id := "grade_call_" +:+ fmt_03d i;
     timestamp := timestamp + i * 1000;
     model := "claude-sonnet-4-20250514";
     temperature := 0.0;
     max_tokens := 4096;
     messages :=
       [ {| role := "user";
            content := "Grade this submission: " +:+ sub_id sub +:+ "..." |} ];
     output_content := grade_text (sub_grade sub);
     stop_reason := "end_turn";
     input_tokens := 2000;
     output_tokens := 500;
     latency_ms := 2500 |}.

(** Line 55: [max(0, min(10, sub.grade + noise))]. *)
Definition clamp_grade (grade noise : Z) : Z :=
  Z.max 0 (Z.min 10 (grade + noise)).

(** Lines 58-67: the distribution around the predicted grade. *)
Definition build_dist (predicted_grade : Z) : exn + list float :=
  let dist := replicate 11 0.0%float in
  dist ← setitem dist predicted_grade 0.7%float;
  dist ← (if 0 <? predicted_grade
          then setitem dist (predicted_grade - 1) 0.15%float
          else x ← getitem dist predicted_grade;
               setitem dist predicted_grade (x + 0.15)%float);
  if predicted_grade <? 10
  then setitem dist (predicted_grade + 1) 0.15%float
  else x ← getitem dist predicted_grade;
       setitem dist predicted_grade (x + 0.15)%float.

(** Lines 69-75: the grade result of submission [i]. *)
Definition grade_result (timestamp i : Z) (sub : Submission)
    (predicted_grade : Z) (dist : list float) : GradeResult :=
  {| gr_submission_id := sub_id sub;
     gr_grade := predicted_grade;
     grade_distribution := dist;
     gr_call_ids := ["grade_call_" +:+ fmt_03d i];
     graded_at := timestamp + i * 1000 + 500 |}.

(** Lines 33-75: the body of the grading loop. *)
Definition grade_body (timestamp : Z) (entry : Z * Submission) : M G unit :=
  let (i, sub) := entry in
  add_llm_call (grade_call timestamp i sub) ;;
  noise ← draw (rs_randint (-1) 1);
  let predicted_grade := clamp_grade (sub_grade sub) noise in
  dist ← lift (build_dist predicted_grade);
  add_grade_result (grade_result timestamp i sub predicted_grade dist).

(** Lines 87-100: the true winner from the ground-truth grades, then the
    observed winner at the requested accuracy, drawing from generator
    state [g]. *)
Definition pick_winner (grade_a grade_b : Z) (accuracy : float) (g : G)
    : string * G :=
  let gt_diff := grade_a - grade_b in
  let (correct_winner, g) :=
    if 0 <? gt_diff then ("a", g)
    else if gt_diff <? 0 then ("b", g)
    else rs_choice "a" ["b"] g in
  let (r, g) := rs_random g in
  let winner :=
    if (r <? accuracy)%float then correct_winner
    else if String.eqb correct_winner "a" then "b" else "a" in
  (winner, g).

(** Lines 103-120: the call record of comparison number [count]. *)
Definition comparison_call (timestamp count : Z) (sub_a sub_b : Submission)
    (winner : string) : CallRecord :=
  {| call_id := "comp_call_" +:+ fmt_03d count;
     timestamp := timestamp + 100000 + count * 1000;
     model := "claude-sonnet-4-20250514";
     temperature := 0.0;
     max_tokens := 4096;
     messages :=
       [ {| role := "user";
            content := "Compare submissions " +:+ sub_id sub_a +:+ " and "
                       +:+ sub_id sub_b +:+ "..." |} ];
     output_content :=
       "Winner: " +:+ upper winner +:+
       String "010" (String "010" ("Submission " +:+ upper winner +:+
         " demonstrates stronger understanding..."));
     stop_reason := "end_turn";
     input_tokens := 4000;
     output_tokens := 800;
     latency_ms := 4000 |}.

(** Lines 123-132: comparison number [count]. *)
Definition comparison_record (timestamp count : Z) (sub_a sub_b : Submission)
    (winner : string) (confidence : float) : Comparison :=
  {| comparison_id := "comp_" +:+ fmt_03d count;
     submission_a := sub_id sub_a;
     submission_b := sub_id sub_b;
     winner := winner;
     cmp_call_ids := ["comp_call_" +:+ fmt_03d count];
     compared_at := timestamp + 100000 + count * 1000 + 500;
     confidence := confidence;
     justification :=
       "Submission " +:+ upper winner +:+
       " shows better analysis and clearer argumentation." |}.

(** Lines 81-134: the body of the inner comparison loop. *)
Definition compare_body (timestamp : Z) (accuracy : float)
    (submissions : list Submission) (ij : Z * Z) : M G unit :=
  let (i, j) := ij in
  sub_a ← lift (getitem submissions i);
  sub_b ← lift (getitem submissions j);
  count ← gets comparison_count;
  winner ← draw (pick_winner (sub_grade sub_a) (sub_grade sub_b) accuracy);
  add_llm_call (comparison_call timestamp count sub_a sub_b winner) ;;
  confidence ← draw (rs_uniform 0.6 0.95);
  add_comparison
    (comparison_record timestamp count sub_a sub_b winner confidence) ;;
  modify (set_comparison_count (count + 1)).

(** Lines 142-159: the call record of anchor comparison [i]. *)
Definition anchor_call (timestamp i : Z) (sub : Submission) : CallRecord :=
  {| call_id := "ext_comp_call_" +:+ fmt_03d i;
     timestamp := timestamp + 200000 + i * 1000;
     model := "claude-sonnet-4-20250514";
     temperature := 0.0;
     max_tokens := 4096;
     messages :=
       [ {| role := "user";
            content := "Compare " +:+ sub_id sub
                       +:+ " against exemplar anchor..." |} ];
     output_content :=
       "Winner: A" +:+
       String "010" (String "010"
         "The submission exceeds the anchor quality...");
     stop_reason := "end_turn";
     input_tokens := 4000;
     output_tokens := 600;
     latency_ms := 3500 |}.

(** Lines 161-170: anchor comparison [i]. *)
Definition anchor_comparison (timestamp i : Z) (sub : Submission) : Comparison :=
  {| comparison_id := "ext_comp_" +:+ fmt_03d i;
     submission_a := sub_id sub;
     submission_b := "external_anchor_exemplar";
     winner := "a";
     cmp_call_ids := ["ext_comp_call_" +:+ fmt_03d i];
     compared_at := timestamp + 200000 + i * 1000 + 500;
     confidence := 0.85;
     justification :=
       "Submission exceeds the anchor quality in argumentation." |}.

(** Lines 137-170: the body of the anchor loop. *)
Definition anchor_body (timestamp : Z) (submissions : list Submission)
    (i : Z) : M G unit :=
  sub ← lift (getitem submissions i);
  add_llm_call (anchor_call timestamp i sub) ;;
  add_comparison (anchor_comparison timestamp i sub).

(** Lines 13-178.  [submissions] is the list read from the EDF at
    [edf_path]; [now_ms] is the clock reading
    [int(datetime.now().timestamp() * 1000)]. *)
Definition create_egf_with_comparisons (submissions : list Submission)
    (now_ms : Z) (edf_path output_path : string) (accuracy : float)
    (seed : Z) (description : string) : M G unit :=
  modify (set_egf (reference_edf edf_path description)) ;;
  let timestamp := now_ms in
  modify (set_rng (rs_seed seed)) ;;
  for_each (enumerate submissions) (grade_body timestamp) ;;
  modify (set_comparison_count 0) ;;
  for_each (range 0 (len submissions)) (fun i =>
    for_each (range (i + 1) (Z.min (i + 3) (len submissions))) (fun j =>
      compare_body timestamp accuracy submissions (i, j))) ;;
  for_each (range 0 3) (anchor_body timestamp submissions) ;;
  save output_path.

End Script.

(** ** Vocabulary of the specification *)

(** Left-to-right sum of a list of floats, from 0. *)
Definition fsum (l : list float) : float := fold_left PrimFloat.add l 0%float.

(** The index pairs visited by the nested comparison loops on [n]
    submissions, in order. *)
Definition pair_indices (n : Z) : list (Z * Z) :=
  i ← range 0 n; j ← range (i + 1) (Z.min (i + 3) n); [(i, j)].

(** Moving every timestamp of an artifact by [d] milliseconds. *)
Definition shift_call (d : Z) (c : CallRecord) : CallRecord :=
  {| call_id := call_id c; timestamp := timestamp c + d; model := model c;
     temperature := temperature c; max_tokens := max_tokens c;
     messages := messages c; output_content := output_content c;
     stop_reason := stop_reason c; input_tokens := input_tokens c;
     output_tokens := output_tokens c; latency_ms := latency_ms c |}.

Definition shift_grade (d : Z) (g : GradeResult) : GradeResult :=
  {| gr_submission_id := gr_submission_id g; gr_grade := gr_grade g;
     grade_distribution := grade_distribution g;
     gr_call_ids := gr_call_ids g; graded_at := graded_at g + d |}.

Definition shift_comparison (d : Z) (c : Comparison) : Comparison :=
  {| comparison_id := comparison_id c; submission_a := submission_a c;
     submission_b := submission_b c; winner := winner c;
     cmp_call_ids := cmp_call_ids c; compared_at := compared_at c + d;
     confidence := confidence c; justification := justification c |}.

Section Relations.
Context {G : Type} `{RandomSource G}.

(** [g] is a grade result the grading loop can add for entry [(i, sub)]
    of [enumerate(submissions)]: the noise is some draw of
    [randint(-1, 1)]. *)
Definition graded (ts : Z) (entry : Z * Submission) (g : GradeResult) : Prop :=
  exists (gen : G) (dist : list float),
    let p := clamp_grade (sub_grade entry.2) (fst (rs_randint (-1) 1 gen)) in
    build_dist p = inr dist /\ g = grade_result ts entry.1 entry.2 p dist.

(** [c] and [cmp] are the call record and the comparison that the
    comparison loop can add as its [k]-th pair, for indices [(i, j)]. *)
Definition compared (ts : Z) (accuracy : float) (submissions : list Submission)
    (entry : Z * (Z * Z)) (c : CallRecord) (cmp : Comparison) : Prop :=
  exists (sub_a sub_b : Submission) (gen : G) (conf : float),
    submissions !! Z.to_nat (entry.2).1 = Some sub_a /\
    submissions !! Z.to_nat (entry.2).2 = Some sub_b /\
    let w := fst (pick_winner (sub_grade sub_a) (sub_grade sub_b) accuracy gen) in
    c = comparison_call ts entry.1 sub_a sub_b w /\
    cmp = comparison_record ts entry.1 sub_a sub_b w conf.

(** Two states of a run that agree on the generator, on the counter and,
    up to a move of the timestamps by [d], on the three collections of the
    artifact.  The reference to the submission set, the description and
    the saved file are left free. *)
Definition shifted (d : Z) (w1 w2 : World G) : Prop :=
  rng w2 = rng w1 /\
  comparison_count w2 = comparison_count w1 /\
  llm_calls (egf w2) = shift_call d <$> llm_calls (egf w1) /\
  grade_results (egf w2) = shift_grade d <$> grade_results (egf w1) /\
  comparisons (egf w2) = shift_comparison d <$> comparisons (egf w1).

(** Two statements that do the same up to such a move. *)
Definition sim (d : Z) {A} (m1 m2 : M G A) : Prop :=
  forall w1 w2, shifted d w1 w2 ->
    fst (m2 w2) = fst (m1 w1) /\ shifted d (snd (m1 w1)) (snd (m2 w2)).

End Relations.

(** ** The scenario of the script's [main]

    Ten submissions with the grades below, and the arguments of the first
    call of [main], run on the concrete random source. *)

Module Scenario.

Definition grades : list Z := [3; 5; 5; 7; 2; 8; 0; 10; 6; 4].

Definition submissions : list Submission :=
  (fun e : Z * Z => {| sub_id := "sub_" +:+ fmt_03d e.1; sub_grade := e.2 |})
    <$> enumerate grades.

(** Three submissions, the first of which carries the identifier that
    the script gives to the external anchor. *)
Definition tainted : list Submission :=
  {| sub_id := "external_anchor_exemplar"; sub_grade := 7 |}
    :: take 2 submissions.

(** The state of a process that has not run the script yet. *)
Definition fresh : World Z :=
  {| rng := 0; egf := reference_edf "" ""; comparison_count := 0;
     saved := None |}.

(** The state of a process that has drawn from the generator, built an
    artifact and counted comparisons before. *)
Definition used : World Z :=
  {| rng := 107;
     egf := egf_add_comparison
              (anchor_comparison 7 0 {| sub_id := "old"; sub_grade := 1 |})
              (reference_edf "old.edf" "earlier");
     comparison_count := 5;
     saved := Some ("old.egf", reference_edf "old.edf" "earlier") |}.

Definition run (subs : list Submission) (now_ms : Z) (accuracy : float)
    : (exn + unit) * World Z :=
  create_egf_with_comparisons subs now_ms "d/nathan_low_quality_sec_a.edf"
    "d/comparisons_80pct.egf" accuracy 42
    "Grading with 80% comparison accuracy" fresh.

End Scenario.

(** ** The entry point *)

(** Lines 181-202: [main] runs the generator twice.  [subs1] and [subs2]
    are the lists that the two calls read from the EDF, [now1] and [now2]
    their clock readings. *)
Definition main {G : Type} `{RandomSource G} (subs1 subs2 : list Submission)
    (now1 now2 : Z) : M G unit :=
  let edf_path := "d/nathan_low_quality_sec_a.edf" in
  create_egf_with_comparisons subs1 now1 edf_path "d/comparisons_80pct.egf"
    0.8 42 "Grading with 80% comparison accuracy" ;;
  create_egf_with_comparisons subs2 now2 edf_path "d/comparisons_65pct.egf"
    0.65 123 "Grading with 65% comparison accuracy".

(** ** The seed argument *)





(** ** Invariants of the artifact *)

(** Statement [m] keeps the property [E] of the artifact, whether it
    completes or raises, and a value it returns satisfies [V]. *)
Definition keeps {G A : Type} (E : EGF -> Prop) (m : M G A) (V : A -> Prop)
    : Prop :=
  forall w : World G,
    E (egf w) -> E (egf (m w).2) /\ forall a, (m w).1 = inr a -> V a.

(** The entries of a list of integers grow strictly with the position. *)
Definition increasing (l : list Z) : Prop :=
  forall (i j : nat) (x y : Z),
    (i < j)%nat -> l !! i = Some x -> l !! j = Some y -> x < y.

(** The pairs of [pair_indices n] in which index [i] takes part, as the
    earlier or as the later member. *)
Definition pairs_with (n i : Z) : list (Z * Z) :=
  filter (fun p : Z * Z => p.1 = i \/ p.2 = i) (pair_indices n).




(** * Properties *)

(** ** The concrete random source meets the documented ranges *)

#[global] Instance Lcg_spec : RandomSourceSpec Z.
Proof.
  split.
  - intros a b g Hab. change (a <= (Lcg.randint a b g).1 <= b).
    unfold Lcg.randint. cbn [fst].
    pose proof (Z.mod_pos_bound (Lcg.bits (Lcg.next g)) (b - a + 1)) as Hm.
    lia.
  - intros A x xs g. change ((Lcg.choice x xs g).1 ∈ x :: xs).
    unfold Lcg.choice. cbn [fst].
    apply list_elem_of_In, nth_In.
    pose proof (Z.mod_pos_bound (Lcg.bits (Lcg.next g)) (len (x :: xs))) as Hm.
    unfold len in *. cbn [length] in *. lia.
  - intros g.
    change ((0 <=? (Lcg.random g).1)%float = true /\
            ((Lcg.random g).1 <? 1)%float = true).
    unfold Lcg.random. cbn [fst].
    pose proof (Z.mod_pos_bound (Lcg.bits (Lcg.next g)) 10) as Hm.
    assert (Z.to_nat (Lcg.bits (Lcg.next g) mod 10) < 10)%nat as Hk by lia.
    revert Hk. generalize (Z.to_nat (Lcg.bits (Lcg.next g) mod 10)) as k.
    intros k Hk.
    do 10 (destruct k as [|k]; [split; vm_compute; reflexivity|]). lia.
Qed.

(** ** The distribution builder *)

Section Distribution.

(** A grade in range is one of eleven values. *)
Lemma grade_cases (p : Z) :
  0 <= p <= 10 ->
  p ∈ [0; 1; 2; 3; 4; 5; 6; 7; 8; 9; 10].
Proof.
  intros Hp. change (p ∈ seqZ 0 11). apply elem_of_seqZ. lia.
Qed.

Ltac each_grade H :=
  apply grade_cases in H;
  repeat (apply elem_of_cons in H as [->|H]);
  [..|by apply elem_of_nil in H].

Lemma build_dist_total (p : Z) :
  0 <= p <= 10 -> exists D, build_dist p = inr D.
Proof.
  intros Hp. each_grade Hp; eexists; vm_compute; reflexivity.
Qed.

(** C2.  For a predicted grade [p] in 0..10 the builder returns an
    11-element list [D]: [D[p]] is 0.7, plus 0.15 when [p] is 0 or 10
    (the neighbour that falls outside the range); the neighbours [p-1] and
    [p+1] inside the range hold 0.15; every other entry is 0.  The
    entries sum to 1.0, added from the left or from the right, none is
    negative, and [D[p]] is at least 0.7. *)
Theorem build_dist_correct (p : Z) :
  0 <= p <= 10 ->
  exists D x,
    build_dist p = inr D /\
    length D = 11%nat /\
    D !! Z.to_nat p = Some x /\
    x = (if (p =? 0) || (p =? 10) then (0.7 + 0.15)%float else 0.7%float) /\
    (forall k, 0 <= k <= 10 -> k = p - 1 \/ k = p + 1 ->
               D !! Z.to_nat k = Some 0.15%float) /\
    (forall k, 0 <= k <= 10 -> k <> p -> k <> p - 1 -> k <> p + 1 ->
               D !! Z.to_nat k = Some 0%float) /\
    fsum D = 1%float /\
    fold_right PrimFloat.add 0%float D = 1%float /\
    Forall (fun y => (0 <=? y)%float = true) D /\
    (0.7 <=? x)%float = true.
Proof.
  intros Hp. each_grade Hp.
  all: eexists _, _; split; [vm_compute; reflexivity|].
  all: split; [reflexivity|].
  all: split; [reflexivity|].
  all: split; [reflexivity|].
  all: split; [intros k Hk Hn; each_grade Hk; first [lia | reflexivity]|].
  all: split; [intros k Hk H1 H2 H3; each_grade Hk; first [lia | reflexivity]|].
  all: split; [vm_compute; reflexivity|].
  all: split; [vm_compute; reflexivity|].
  all: split; [|vm_compute; reflexivity].
  all: repeat (apply Forall_cons; split; [vm_compute; reflexivity|]).
  all: apply Forall_nil; exact I.
Qed.

Lemma build_dist_correct_witness :
  exists D x,
    build_dist 0 = inr D /\
    length D = 11%nat /\
    D !! Z.to_nat 0 = Some x /\
    x = (if (0 =? 0) || (0 =? 10) then (0.7 + 0.15)%float else 0.7%float) /\
    (forall k, 0 <= k <= 10 -> k = 0 - 1 \/ k = 0 + 1 ->
               D !! Z.to_nat k = Some 0.15%float) /\
    (forall k, 0 <= k <= 10 -> k <> 0 -> k <> 0 - 1 -> k <> 0 + 1 ->
               D !! Z.to_nat k = Some 0%float) /\
    fsum D = 1%float /\
    fold_right PrimFloat.add 0%float D = 1%float /\
    Forall (fun y => (0 <=? y)%float = true) D /\
    (0.7 <=? x)%float = true.
Proof. apply (build_dist_correct 0). lia. Defined.

End Distribution.

(** ** Running statements *)

Section Run.
Context {G : Type} `{RandomSource G}.
Implicit Types (w : World G) (sub : Submission).

Lemma bind_returns {A B} (m : M G A) (f : A -> M G B) w a w1 :
  m w = (inr a, w1) -> (m ≫= f) w = f a w1.
Proof. intros Hm. unfold mbind, M_bind. by rewrite Hm. Qed.

Lemma bind_raises {A B} (m : M G A) (f : A -> M G B) w e w1 :
  m w = (inl e, w1) -> (m ≫= f) w = (inl e, w1).
Proof. intros Hm. unfold mbind, M_bind. by rewrite Hm. Qed.

Lemma bind_unfold {A B} (m : M G A) (f : A -> M G B) w :
  (m ≫= f) w =
  match m w with (inr a, w') => f a w' | (inl e, w') => (inl e, w') end.
Proof. reflexivity. Qed.


Lemma for_each_app {A} (l1 l2 : list A) (body : A -> M G unit) w :
  for_each (l1 ++ l2) body w = (for_each l1 body ;; for_each l2 body) w.
Proof.
  revert w. induction l1 as [|x l1 IH]; intros w; [done|].
  cbn [for_each app]. rewrite !bind_unfold.
  destruct (body x w) as [[e|[]] w1]; [done|]. rewrite IH.
  by rewrite bind_unfold.
Qed.

(** Two nested loops visit the pairs of the flattened index list. *)
Lemma for_each_nested {A B} (l : list A) (inner : A -> list B)
    (body : A * B -> M G unit) w :
  for_each l (fun i => for_each (inner i) (fun j => body (i, j))) w =
  for_each (i ← l; j ← inner i; [(i, j)]) body w.
Proof.
  revert w. induction l as [|i l IH]; intros w; [done|].
  cbn [for_each]. change ((i :: l) ≫= ?f) with (f i ++ (l ≫= f)).
  rewrite for_each_app, !bind_unfold.
  assert (forall k w0, for_each k (fun j => body (i, j)) w0 =
                       for_each (j ← k; [(i, j)]) body w0) as Hin.
  { induction k as [|j k IHk]; intros w0; [done|].
    change ((j :: k) ≫= ?f) with (f j ++ (k ≫= f)).
    cbn [for_each app]. rewrite !bind_unfold.
    destruct (body (i, j) w0) as [[e|[]] w1]; [done|]. apply IHk. }
  rewrite Hin.
  destruct (for_each _ body w) as [[e|[]] w1]; [done|]. apply IH.
Qed.

(** The loop rule: an invariant of the processed prefix, kept by every
    iteration, holds of the whole list when the loop ends, and the loop
    ends without raising. *)
Lemma for_each_inv {A} (I : list A -> World G -> Prop) (l : list A)
    (body : A -> M G unit) w :
  I [] w ->
  (forall pre x w1, x ∈ l -> I pre w1 ->
     exists w2, body x w1 = (inr tt, w2) /\ I (pre ++ [x]) w2) ->
  exists w', for_each l body w = (inr tt, w') /\ I l w'.
Proof.
  intros H0 Hstep.
  assert (forall suf pre w1, (forall x, x ∈ suf -> x ∈ l) -> I pre w1 ->
            exists w', for_each suf body w1 = (inr tt, w') /\ I (pre ++ suf) w')
    as Hgen.
  { induction suf as [|x suf IH]; intros pre w1 Hsub Hpre.
    - exists w1. by rewrite app_nil_r.
    - destruct (Hstep pre x w1) as (w2 & Hrun & Hinv); [apply Hsub; left|done|].
      destruct (IH (pre ++ [x]) w2) as (w' & Hrun' & Hinv');
        [intros y Hy; apply Hsub; by right|done|].
      exists w'. split.
      + cbn. by rewrite (bind_returns _ _ _ _ _ Hrun).
      + by rewrite <- app_assoc in Hinv'. }
  apply (Hgen l [] w); auto.
Qed.

Lemma enumerate_snoc {A} (l : list A) (x : A) :
  enumerate (l ++ [x]) = enumerate l ++ [(len l, x)].
Proof.
  unfold enumerate, len. rewrite length_app, Nat.add_1_r, seqZ_S.
  rewrite zip_with_app by (rewrite length_seqZ; lia). done.
Qed.

Lemma enumerate_length {A} (l : list A) : length (enumerate l) = length l.
Proof.
  unfold enumerate, len. rewrite length_zip_with, length_seqZ. lia.
Qed.

Lemma getitem_lookup {A} (l : list A) (i : Z) (x : A) :
  0 <= i -> l !! Z.to_nat i = Some x -> getitem l i = inr x.
Proof.
  intros Hi Hx. pose proof (lookup_lt_Some _ _ _ Hx) as Hlt.
  unfold getitem, norm_index, len.
  rewrite (proj2 (Z.leb_le 0 i)) by done.
  rewrite (proj2 (Z.ltb_lt i _)) by lia. cbn. by rewrite Hx.
Qed.

Lemma getitem_out_of_range {A} (l : list A) (i : Z) :
  len l <= i -> getitem l i = inl IndexError.
Proof.
  intros Hi. unfold getitem, norm_index, len in *.
  rewrite (proj2 (Z.ltb_ge i _)) by done. rewrite andb_false_r.
  rewrite (proj2 (Z.ltb_ge i 0)) by lia. done.
Qed.

Lemma clamp_grade_range (grade noise : Z) : 0 <= clamp_grade grade noise <= 10.
Proof. unfold clamp_grade. lia. Qed.

End Run.

(** ** The three loops *)

Section Loops.
Context {G : Type} `{RandomSource G}.
Implicit Types (w : World G) (sub : Submission).

(** One iteration of the grading loop never raises; it adds the call
    record and one grade result, whose grade is the clamped sum of the
    ground-truth grade and the draw of [randint(-1, 1)]. *)
Lemma grade_body_step ts i sub w :
  let draw := rs_randint (-1) 1 (rng w) in
  let p := clamp_grade (sub_grade sub) draw.1 in
  exists w' dist,
    grade_body ts (i, sub) w = (inr tt, w') /\
    build_dist p = inr dist /\
    rng w' = draw.2 /\
    saved w' = saved w /\
    egf w' = egf_add_grade_result (grade_result ts i sub p dist)
               (egf_add_llm_call (grade_call ts i sub) (egf w)).
Proof.
  cbv zeta.
  destruct (rs_randint (-1) 1 (rng w)) as [noise g'] eqn:Hr.
  destruct (build_dist_total (clamp_grade (sub_grade sub) noise))
    as [dist Hd]; [apply clamp_grade_range|].
  eexists _, dist. split; [|split; [exact Hd|]].
  - unfold grade_body, add_llm_call, add_grade_result, modify, draw, lift.
    rewrite !bind_unfold. cbn [rng set_egf]. rewrite Hr.
    rewrite !bind_unfold. cbn [fst]. rewrite Hd. reflexivity.
  - repeat split; reflexivity.
Qed.

Lemma grade_body_run ts i sub w :
  exists w' g,
    grade_body ts (i, sub) w = (inr tt, w') /\
    graded ts (i, sub) g /\
    saved w' = saved w /\
    egf w' = egf_add_grade_result g
               (egf_add_llm_call (grade_call ts i sub) (egf w)).
Proof.
  destruct (grade_body_step ts i sub w) as (w' & dist & Hrun & Hd & _ & Hs & He).
  eexists w', _. split; [exact Hrun|]. split; [|by split].
  by exists (rng w), dist.
Qed.

(** One iteration of the comparison loop on indices in range never
    raises; it adds one call record and one comparison and advances the
    counter. *)
Lemma compare_body_run ts acc subs i j sa sb w :
  0 <= i -> 0 <= j ->
  subs !! Z.to_nat i = Some sa -> subs !! Z.to_nat j = Some sb ->
  exists w' c cmp,
    compare_body ts acc subs (i, j) w = (inr tt, w') /\
    compared ts acc subs (comparison_count w, (i, j)) c cmp /\
    saved w' = saved w /\
    comparison_count w' = comparison_count w + 1 /\
    egf w' = egf_add_comparison cmp (egf_add_llm_call c (egf w)).
Proof.
  intros Hi Hj Ha Hb.
  destruct (pick_winner (sub_grade sa) (sub_grade sb) acc (rng w))
    as [win g1] eqn:Hw.
  destruct (rs_uniform 0.6 0.95 g1) as [conf g2] eqn:Hc.
  eexists _, (comparison_call ts (comparison_count w) sa sb win),
    (comparison_record ts (comparison_count w) sa sb win conf).
  split; [|split].
  - unfold compare_body, add_llm_call, add_comparison, modify, draw, lift, gets.
    rewrite (getitem_lookup _ _ _ Hi Ha), (getitem_lookup _ _ _ Hj Hb).
    rewrite !bind_unfold. cbn [rng set_egf]. rewrite Hw.
    rewrite !bind_unfold. cbn [rng set_egf set_rng]. rewrite Hc.
    rewrite !bind_unfold. reflexivity.
  - exists sa, sb, (rng w), conf. cbn [fst snd]. rewrite Hw. by repeat split.
  - repeat split; reflexivity.
Qed.

(** The grading loop. *)
Lemma grade_loop_run ts subs path desc w :
  egf w = reference_edf path desc ->
  exists w' gs,
    for_each (enumerate subs) (grade_body ts) w = (inr tt, w') /\
    saved w' = saved w /\
    Forall2 (graded ts) (enumerate subs) gs /\
    egf w' = {| edf_ref := path; egf_description := desc;
                llm_calls := (fun e => grade_call ts e.1 e.2) <$> enumerate subs;
                grade_results := gs; comparisons := [] |}.
Proof.
  intros He.
  destruct (for_each_inv
    (fun pre w1 => saved w1 = saved w /\ exists gs,
       Forall2 (graded ts) pre gs /\
       egf w1 = {| edf_ref := path; egf_description := desc;
                   llm_calls := (fun e => grade_call ts e.1 e.2) <$> pre;
                   grade_results := gs; comparisons := [] |})
    (enumerate subs) (grade_body ts) w) as (w' & Hrun & Hs & gs & Hgs & Hegf).
  - split; [done|]. exists []. split; [constructor|]. by rewrite He.
  - intros pre [i sub] w1 _ (Hs & gs & Hgs & Hegf).
    destruct (grade_body_run ts i sub w1) as (w2 & g & Hrun & Hg & Hs2 & He2).
    exists w2. split; [done|]. split; [congruence|].
    exists (gs ++ [g]). split.
    + apply Forall2_app; [done|]. by constructor.
    + rewrite He2, Hegf, fmap_app. reflexivity.
  - by exists w', gs.
Qed.

End Loops.

(** ** The pairs of the comparison loop *)

Lemma elem_of_pair_indices (n i j : Z) :
  (i, j) ∈ pair_indices n <->
  0 <= i /\ i < j /\ (j = i + 1 \/ j = i + 2) /\ j < n.
Proof.
  unfold pair_indices, range. rewrite list_elem_of_bind. split.
  - intros (i' & Hin & Hi'). apply list_elem_of_bind in Hin as (j' & Hin & Hj').
    apply list_elem_of_singleton in Hin. injection Hin as -> ->.
    apply elem_of_seqZ in Hi', Hj'. lia.
  - intros Hij. exists i. split; [|apply elem_of_seqZ; lia].
    apply list_elem_of_bind. exists j. split; [by apply list_elem_of_singleton|].
    apply elem_of_seqZ. lia.
Qed.

Section Comparisons.
Context {G : Type} `{RandomSource G}.
Implicit Types (w : World G) (sub : Submission).

(** The comparison loops. *)
Lemma compare_loop_run ts acc subs path desc calls gs w :
  comparison_count w = 0 ->
  egf w = {| edf_ref := path; egf_description := desc; llm_calls := calls;
             grade_results := gs; comparisons := [] |} ->
  exists w' ccs cmps,
    for_each (range 0 (len subs)) (fun i =>
      for_each (range (i + 1) (Z.min (i + 3) (len subs))) (fun j =>
        compare_body ts acc subs (i, j))) w = (inr tt, w') /\
    saved w' = saved w /\
    Forall3 (compared ts acc subs) (enumerate (pair_indices (len subs)))
      ccs cmps /\
    egf w' = {| edf_ref := path; egf_description := desc;
                llm_calls := calls ++ ccs;
                grade_results := gs; comparisons := cmps |}.
Proof.
  intros Hc He.
  rewrite (for_each_nested (range 0 (len subs))
             (fun i => range (i + 1) (Z.min (i + 3) (len subs)))
             (compare_body ts acc subs)).
  change (i ← range 0 (len subs);
          j ← range (i + 1) (Z.min (i + 3) (len subs)); [(i, j)])
    with (pair_indices (len subs)).
  destruct (for_each_inv
    (fun pre w1 => saved w1 = saved w /\ comparison_count w1 = len pre /\
       exists ccs cmps,
         Forall3 (compared ts acc subs) (enumerate pre) ccs cmps /\
         egf w1 = {| edf_ref := path; egf_description := desc;
                     llm_calls := calls ++ ccs;
                     grade_results := gs; comparisons := cmps |})
    (pair_indices (len subs)) (compare_body ts acc subs) w)
    as (w' & Hrun & Hs & _ & ccs & cmps & Hall & Hegf).
  - split; [done|]. split; [done|]. exists [], []. split; [constructor|].
    by rewrite app_nil_r.
  - intros pre [i j] w1 Hin (Hs & Hcnt & ccs & cmps & Hall & Hegf).
    apply elem_of_pair_indices in Hin.
    destruct (lookup_lt_is_Some_2 subs (Z.to_nat i)) as [sa Ha];
      [unfold len in Hin; lia|].
    destruct (lookup_lt_is_Some_2 subs (Z.to_nat j)) as [sb Hb];
      [unfold len in Hin; lia|].
    destruct (compare_body_run ts acc subs i j sa sb w1)
      as (w2 & c & cmp & Hrun & Hcmp & Hs2 & Hc2 & He2); [lia|lia|done|done|].
    exists w2. split; [done|]. split; [congruence|]. split.
    { rewrite Hc2, Hcnt. unfold len. rewrite length_app. cbn. lia. }
    exists (ccs ++ [c]), (cmps ++ [cmp]). split.
    + rewrite enumerate_snoc. apply Forall3_app; [done|].
      rewrite <- Hcnt. by repeat constructor.
    + rewrite He2, Hegf. unfold egf_add_comparison, egf_add_llm_call.
      cbn. by rewrite app_assoc.
  - by exists w', ccs, cmps.
Qed.

End Comparisons.

(** ** The anchor loop and the whole run *)

Section WholeRun.
Context {G : Type} `{RandomSource G}.
Implicit Types (w : World G) (sub : Submission).

Lemma modify_run (f : World G -> World G) w : modify f w = (inr tt, f w).
Proof. reflexivity. Qed.

Lemma anchor_body_run ts subs i sub w :
  0 <= i -> subs !! Z.to_nat i = Some sub ->
  anchor_body ts subs i w =
  (inr tt, set_egf (egf_add_comparison (anchor_comparison ts i sub)
                      (egf_add_llm_call (anchor_call ts i sub) (egf w))) w).
Proof.
  intros Hi Hs. unfold anchor_body, lift, add_llm_call, add_comparison, modify.
  rewrite (getitem_lookup _ _ _ Hi Hs). reflexivity.
Qed.

Lemma anchor_body_raise ts subs i w :
  len subs <= i -> anchor_body ts subs i w = (inl IndexError, w).
Proof.
  intros Hi. unfold anchor_body, lift.
  rewrite (getitem_out_of_range _ _ Hi). reflexivity.
Qed.

(** The anchor loop followed by [egf.save]: with at least three
    submissions three anchors are added and the artifact is saved; with
    fewer, one anchor per submission is added, then [submissions[i]]
    raises and nothing is saved. *)
Lemma anchors_run ts subs out path desc calls gs cmps w :
  egf w = {| edf_ref := path; egf_description := desc; llm_calls := calls;
             grade_results := gs; comparisons := cmps |} ->
  exists w',
    (for_each (range 0 3) (anchor_body ts subs) ;; save out) w =
      (if 3 <=? len subs then inr tt else inl IndexError, w') /\
    saved w' = (if 3 <=? len subs then Some (out, egf w') else saved w) /\
    egf w' =
      {| edf_ref := path; egf_description := desc;
         llm_calls :=
           calls ++ ((fun e => anchor_call ts e.1 e.2) <$> enumerate (take 3 subs));
         grade_results := gs;
         comparisons :=
           cmps ++ ((fun e => anchor_comparison ts e.1 e.2)
                      <$> enumerate (take 3 subs)) |}.
Proof.
  intros He. change (range 0 3) with [0; 1; 2]. cbn [for_each].
  destruct subs as [|s0 [|s1 [|s2 rest]]].
  - eexists. rewrite !bind_unfold, anchor_body_raise by (unfold len; cbn; lia).
    split; [reflexivity|split; [reflexivity|]].
    rewrite He. cbn. by rewrite !app_nil_r.
  - eexists. rewrite !bind_unfold.
    rewrite (anchor_body_run _ _ 0 s0) by (done || lia).
    rewrite !bind_unfold, anchor_body_raise by (unfold len; cbn; lia).
    split; [reflexivity|split; [reflexivity|]].
    cbn [egf set_egf]. rewrite He. reflexivity.
  - eexists. rewrite !bind_unfold.
    rewrite (anchor_body_run _ _ 0 s0) by (done || lia).
    rewrite !bind_unfold.
    rewrite (anchor_body_run _ _ 1 s1) by (done || lia).
    rewrite !bind_unfold, anchor_body_raise by (unfold len; cbn; lia).
    split; [reflexivity|split; [reflexivity|]].
    cbn [egf set_egf]. rewrite He. unfold egf_add_comparison, egf_add_llm_call.
    cbn [edf_ref egf_description llm_calls grade_results comparisons].
    rewrite <- !app_assoc. reflexivity.
  - eexists. rewrite !bind_unfold.
    rewrite (anchor_body_run _ _ 0 s0) by (done || lia).
    rewrite !bind_unfold.
    rewrite (anchor_body_run _ _ 1 s1) by (done || lia).
    rewrite !bind_unfold.
    rewrite (anchor_body_run _ _ 2 s2) by (done || lia).
    replace (3 <=? len (s0 :: s1 :: s2 :: rest)) with true
      by (symmetry; apply Z.leb_le; unfold len; cbn [length]; lia).
    split; [reflexivity|split; [reflexivity|]].
    cbn [egf set_egf set_saved save modify snd]. rewrite He.
    unfold egf_add_comparison, egf_add_llm_call.
    cbn [edf_ref egf_description llm_calls grade_results comparisons].
    rewrite <- !app_assoc. reflexivity.
Qed.

(** What a run does, whatever the inputs. *)
Lemma run_outcome subs now path out acc seed desc w0 :
  exists w' gs ccs cmps,
    create_egf_with_comparisons subs now path out acc seed desc w0 =
      (if 3 <=? len subs then inr tt else inl IndexError, w') /\
    saved w' = (if 3 <=? len subs then Some (out, egf w') else saved w0) /\
    Forall2 (graded now) (enumerate subs) gs /\
    Forall3 (compared now acc subs) (enumerate (pair_indices (len subs)))
      ccs cmps /\
    egf w' =
      {| edf_ref := path; egf_description := desc;
         llm_calls :=
           ((fun e => grade_call now e.1 e.2) <$> enumerate subs) ++ ccs ++
           ((fun e => anchor_call now e.1 e.2) <$> enumerate (take 3 subs));
         grade_results := gs;
         comparisons :=
           cmps ++ ((fun e => anchor_comparison now e.1 e.2)
                      <$> enumerate (take 3 subs)) |}.
Proof.
  unfold create_egf_with_comparisons.
  rewrite (bind_returns _ _ _ _ _ (modify_run _ _)).
  rewrite (bind_returns _ _ _ _ _ (modify_run _ _)).
  destruct (grade_loop_run now subs path desc
              (set_rng (rs_seed seed) (set_egf (reference_edf path desc) w0)))
    as (w1 & gs & Hrun1 & Hs1 & Hgs & He1); [done|].
  rewrite (bind_returns _ _ _ _ _ Hrun1).
  rewrite (bind_returns _ _ _ _ _ (modify_run _ _)).
  destruct (compare_loop_run now acc subs path desc
              ((fun e => grade_call now e.1 e.2) <$> enumerate subs) gs
              (set_comparison_count 0 w1))
    as (w2 & ccs & cmps & Hrun2 & Hs2 & Hall & He2); [done|exact He1|].
  rewrite (bind_returns _ _ _ _ _ Hrun2).
  destruct (anchors_run now subs out path desc _ gs cmps w2 He2)
    as (w3 & Hrun3 & Hs3 & He3).
  exists w3, gs, ccs, cmps. rewrite Hrun3. split; [done|].
  split; [|split; [done|split; [done|]]].
  - rewrite Hs3. destruct (3 <=? len subs); [done|].
    rewrite Hs2. cbn. by rewrite Hs1.
  - rewrite He3. by rewrite <- app_assoc.
Qed.

End WholeRun.

(** ** The comparison synthesizer and the grade synthesizer *)

Section Synthesizers.
Context {G : Type} `{RandomSourceSpec G}.
Implicit Types (w : World G) (sub : Submission).


(** C6.  For a ground-truth grade [g] in 0..10, the grading step never
    raises and records the predicted grade [p = clamp(g + delta, 0, 10)],
    where [delta] is the value of [random.randint(-1, 1)], one of -1, 0
    and 1; so [p] is in 0..10 and differs from [g] by at most 1. *)
Theorem grade_synthesis_correct ts i sub w :
  0 <= sub_grade sub <= 10 ->
  exists w' (delta p : Z) (dist : list float),
    delta = (rs_randint (-1) 1 (rng w)).1 /\
    (delta = -1 \/ delta = 0 \/ delta = 1) /\
    grade_body ts (i, sub) w = (inr tt, w') /\
    grade_results (egf w') =
      grade_results (egf w) ++ [grade_result ts i sub p dist] /\
    (sub_grade sub + delta < 0 -> p = 0) /\
    (0 <= sub_grade sub + delta <= 10 -> p = sub_grade sub + delta) /\
    (10 < sub_grade sub + delta -> p = 10) /\
    0 <= p <= 10 /\
    Z.abs (p - sub_grade sub) <= 1.
Proof.
  intros Hg.
  destruct (grade_body_step ts i sub w) as (w' & dist & Hrun & _ & _ & _ & He).
  pose proof (rs_randint_range (-1) 1 (rng w)) as Hd.
  exists w', (rs_randint (-1) 1 (rng w)).1,
    (clamp_grade (sub_grade sub) (rs_randint (-1) 1 (rng w)).1), dist.
  split; [done|]. split; [lia|]. split; [done|]. split; [by rewrite He|].
  unfold clamp_grade. lia.
Qed.

End Synthesizers.


Lemma grade_synthesis_correct_witness :
  0 <= 10 <= 10 /\
  exists (w' : World Z) (delta p : Z) (dist : list float),
    delta = (rs_randint (-1) 1 7).1 /\
    (delta = -1 \/ delta = 0 \/ delta = 1) /\
    grade_body 1000 (0, {| sub_id := "s0"; sub_grade := 10 |})
      {| rng := 7; egf := reference_edf "in.edf" "d";
         comparison_count := 0; saved := None |} = (inr tt, w') /\
    grade_results (egf w') =
      [] ++ [grade_result 1000 0 {| sub_id := "s0"; sub_grade := 10 |} p dist] /\
    (10 + delta < 0 -> p = 0) /\
    (0 <= 10 + delta <= 10 -> p = 10 + delta) /\
    (10 < 10 + delta -> p = 10) /\
    0 <= p <= 10 /\
    Z.abs (p - 10) <= 1.
Proof.
  split; [lia|].
  apply (grade_synthesis_correct (G := Z) 1000 0
           {| sub_id := "s0"; sub_grade := 10 |}
           {| rng := 7; egf := reference_edf "in.edf" "d";
              comparison_count := 0; saved := None |}).
  cbn. lia.
Defined.

(** ** Counting the pairs *)

Lemma bind_ext_in {A B} (f g : A -> list B) (l : list A) :
  (forall x, x ∈ l -> f x = g x) -> l ≫= f = l ≫= g.
Proof.
  induction l as [|x l IH]; intros Hfg; [done|].
  change ((x :: l) ≫= f) with (f x ++ (l ≫= f)).
  change ((x :: l) ≫= g) with (g x ++ (l ≫= g)).
  rewrite Hfg by left. rewrite IH; [done|]. intros y Hy. apply Hfg. by right.
Qed.

Lemma bind_two_length {A B} (a b : A -> B) (l : list A) :
  length (l ≫= fun x => [a x; b x]) = (2 * length l)%nat.
Proof.
  induction l as [|x l IH]; [done|].
  change ((x :: l) ≫= ?f) with (f x ++ (l ≫= f)).
  rewrite length_app, IH. cbn [length]. lia.
Qed.

Lemma seqZ_one (m : Z) : seqZ m 1 = [m].
Proof. unfold seqZ. change (Z.to_nat 1) with 1%nat. cbn. f_equal. Qed.

Lemma seqZ_two (m : Z) : seqZ m 2 = [m; m + 1].
Proof.
  unfold seqZ. change (Z.to_nat 2) with 2%nat. cbn. repeat (f_equal; try lia).
Qed.

Lemma range_two (i n : Z) :
  i + 3 <= n -> range (i + 1) (Z.min (i + 3) n) = [i + 1; i + 2].
Proof.
  intros Hi. unfold range.
  replace (Z.min (i + 3) n - (i + 1)) with 2 by lia.
  rewrite seqZ_two. repeat (f_equal; try lia).
Qed.

(** From two submissions on, the pairs are [(i, i+1)] and [(i, i+2)] for
    every [i] up to [n-3], then [(n-2, n-1)]. *)
Lemma pair_indices_eq (n : Z) :
  2 <= n ->
  pair_indices n =
    (seqZ 0 (n - 2) ≫= fun i => [(i, i + 1); (i, i + 2)]) ++ [(n - 2, n - 1)].
Proof.
  intros Hn. unfold pair_indices.
  change (range 0 n) with (seqZ 0 (n - 0)).
  replace (n - 0) with ((n - 2) + 2) by lia.
  rewrite seqZ_app by lia. rewrite bind_app. f_equal.
  - apply bind_ext_in. intros i Hi%elem_of_seqZ.
    rewrite range_two by lia. reflexivity.
  - replace (0 + (n - 2)) with (n - 2) by lia.
    rewrite seqZ_two.
    change ([?a; ?b] ≫= ?f) with (f a ++ f b ++ []).
    unfold range.
    replace (Z.min (n - 2 + 3) n - (n - 2 + 1)) with 1 by lia.
    replace (Z.min (n - 2 + 1 + 3) n - (n - 2 + 1 + 1)) with 0 by lia.
    rewrite (seqZ_nil _ 0) by lia. rewrite seqZ_one. cbn.
    repeat (f_equal; try lia).
Qed.

Lemma pair_indices_small (n : Z) : n <= 1 -> pair_indices n = [].
Proof.
  intros Hn. unfold pair_indices.
  destruct (Z.le_gt_cases n 0) as [H0|H0].
  - change (range 0 n) with (seqZ 0 (n - 0)). by rewrite seqZ_nil by lia.
  - assert (n = 1) as -> by lia. reflexivity.
Qed.

Lemma pair_indices_length (n : Z) :
  2 <= n -> len (pair_indices n) = 2 * n - 3.
Proof.
  intros Hn. rewrite pair_indices_eq by done. unfold len.
  rewrite length_app, bind_two_length, length_seqZ. cbn [length]. lia.
Qed.

Lemma pair_indices_NoDup (n : Z) : NoDup (pair_indices n).
Proof.
  unfold pair_indices. apply NoDup_bind.
  - intros i1 i2 [a b] _ _ (j1 & Hin1 & _)%list_elem_of_bind
      (j2 & Hin2 & _)%list_elem_of_bind.
    apply list_elem_of_singleton in Hin1, Hin2. congruence.
  - intros i _. apply NoDup_bind.
    + intros j1 j2 [a b] _ _ Hin1%list_elem_of_singleton
        Hin2%list_elem_of_singleton. congruence.
    + intros j _. apply NoDup_singleton.
    + apply NoDup_seqZ.
  - apply NoDup_seqZ.
Qed.

(** An index with two successors is the earlier member of exactly two
    pairs. *)
Lemma pair_indices_earlier (n i : Z) :
  0 <= i < n - 2 ->
  length (filter (fun p : Z * Z => p.1 = i) (pair_indices n)) = 2%nat.
Proof.
  intros Hi.
  assert (filter (fun p : Z * Z => p.1 = i) (pair_indices n)
            ≡ₚ [(i, i + 1); (i, i + 2)]) as Hp.
  { apply NoDup_Permutation.
    - apply NoDup_filter, pair_indices_NoDup.
    - apply NoDup_cons. split; [|apply NoDup_singleton].
      intros Hin%list_elem_of_singleton. injection Hin. lia.
    - intros [a b]. rewrite list_elem_of_filter, elem_of_pair_indices.
      rewrite elem_of_cons, list_elem_of_singleton. cbn [fst]. split.
      + intros (-> & Hij). destruct Hij as (_ & _ & [->| ->] & _); auto.
      + intros [Heq|Heq]; injection Heq as -> ->; lia. }
  by rewrite Hp.
Qed.

(** ** From the loop relations to the lists of the artifact *)

Lemma Forall2_fmap_eq {A B D} (P : A -> B -> Prop) (f : A -> D) (g : B -> D)
    (l : list A) (k : list B) :
  (forall a b, P a b -> f a = g b) -> Forall2 P l k -> f <$> l = g <$> k.
Proof.
  intros HP. induction 1 as [|a b l k Hab _ IH]; [done|].
  cbn. by rewrite (HP a b Hab), IH.
Qed.

Lemma Forall3_fmap_eq {A B C D} (P : A -> B -> C -> Prop) (f : B -> D)
    (g : C -> D) (l : list A) (bs : list B) (cs : list C) :
  (forall a b c, P a b c -> f b = g c) -> Forall3 P l bs cs -> f <$> bs = g <$> cs.
Proof.
  intros HP. induction 1 as [|a b c l bs cs Habc _ IH]; [done|].
  cbn. by rewrite (HP a b c Habc), IH.
Qed.

Lemma Forall3_Forall2_lr {A B C} (P : A -> B -> C -> Prop) (Q : A -> C -> Prop)
    (l : list A) (bs : list B) (cs : list C) :
  (forall a b c, P a b c -> Q a c) -> Forall3 P l bs cs -> Forall2 Q l cs.
Proof. intros HP. induction 1; constructor; eauto. Qed.

Lemma Forall2_Forall_r {A B} (P : A -> B -> Prop) (Q : B -> Prop)
    (l : list A) (k : list B) :
  (forall a b, P a b -> Q b) -> Forall2 P l k -> Forall Q k.
Proof. intros HP. induction 1; constructor; eauto. Qed.

(** A relation on the entries of [enumerate l] that ignores the index is
    a relation on [l]. *)
Lemma Forall2_enumerate {A B} (P : Z * A -> B -> Prop) (Q : A -> B -> Prop)
    (l : list A) (k : list B) :
  (forall i a b, P (i, a) b -> Q a b) ->
  Forall2 P (enumerate l) k -> Forall2 Q l k.
Proof.
  intros HP. unfold enumerate, len. generalize 0 as m.
  revert k. induction l as [|a l IH]; intros k m Hall.
  - rewrite seqZ_nil in Hall by done. inversion Hall. constructor.
  - rewrite seqZ_cons in Hall by (cbn [length]; lia).
    replace (Z.pred (Z.of_nat (length (a :: l)))) with (Z.of_nat (length l))
      in Hall by (cbn [length]; lia).
    cbn in Hall. inversion Hall as [|? b ? k' Hab Hrest]; subst.
    constructor; [by eapply HP|]. by eapply IH.
Qed.

Lemma enumerate_lookup {A} (l : list A) (k : nat) (x : A) :
  l !! k = Some x -> enumerate l !! k = Some (Z.of_nat k, x).
Proof.
  intros Hx. apply lookup_zip_Some. split; [|done].
  pose proof (lookup_lt_Some _ _ _ Hx).
  by rewrite lookup_seqZ_lt by (unfold len; lia).
Qed.

Lemma string_length_app (s1 s2 : string) :
  String.length (s1 +:+ s2) = (String.length s1 + String.length s2)%nat.
Proof. induction s1 as [|c s1 IH]; simpl; [done|]. by f_equal. Qed.

Lemma string_app_inv_tail (s1 s2 r : string) :
  s1 +:+ r = s2 +:+ r -> s1 = s2.
Proof.
  revert s2. induction s1 as [|c s1 IH]; intros [|d s2] Heq.
  - done.
  - apply (f_equal String.length) in Heq.
    rewrite !string_length_app in Heq. simpl in Heq. lia.
  - apply (f_equal String.length) in Heq.
    rewrite !string_length_app in Heq. simpl in Heq. lia.
  - simpl in Heq. injection Heq as -> Heq. f_equal. by apply IH.
Qed.

(** ** The artifact of a run *)

Section Artifact.
Context {G : Type} `{RandomSource G}.
Implicit Types (w : World G) (sub : Submission).

(** C5.  On [n] submissions the comparison loops visit exactly the index
    pairs [(i, j)] with [i < j], [j] one of [i+1] and [i+2], and [j < n],
    each once, and the non-anchor comparisons of the artifact are the
    comparisons of these pairs, in order.  There are at most [2n] of them,
    exactly [2n-3] from two submissions on (17 for ten), and every index
    [i < n-2] is the earlier member of exactly two. *)
Theorem pairing_correct subs now path out acc seed desc w0 :
  let n := len subs in
  let r := create_egf_with_comparisons subs now path out acc seed desc w0 in
  (forall i j, (i, j) ∈ pair_indices n <->
               0 <= i /\ i < j /\ (j = i + 1 \/ j = i + 2) /\ j < n) /\
  NoDup (pair_indices n) /\
  (exists cmps anchors,
     comparisons (egf r.2) = cmps ++ anchors /\
     anchors = ((fun e => anchor_comparison now e.1 e.2)
                  <$> enumerate (take 3 subs)) /\
     Forall2 (fun ij c => exists sa sb,
                subs !! Z.to_nat ij.1 = Some sa /\
                subs !! Z.to_nat ij.2 = Some sb /\
                submission_a c = sub_id sa /\ submission_b c = sub_id sb)
       (pair_indices n) cmps) /\
  len (pair_indices n) <= 2 * n /\
  (2 <= n -> len (pair_indices n) = 2 * n - 3) /\
  len (pair_indices 10) = 17 /\
  (forall i, 0 <= i < n - 2 ->
     length (filter (fun p : Z * Z => p.1 = i) (pair_indices n)) = 2%nat).
Proof.
  cbv zeta.
  destruct (run_outcome subs now path out acc seed desc w0)
    as (w' & gs & ccs & cmps & Hrun & _ & _ & Hall & He).
  rewrite Hrun. cbn [snd].
  split; [intros i j; apply elem_of_pair_indices|].
  split; [apply pair_indices_NoDup|].
  split; [|split; [|split; [apply pair_indices_length|split; [reflexivity|]]]].
  - eexists cmps, _. rewrite He. cbn [comparisons]. split; [reflexivity|].
    split; [reflexivity|].
    apply (Forall2_enumerate
      (fun e c => exists sa sb,
         subs !! Z.to_nat (e.2).1 = Some sa /\
         subs !! Z.to_nat (e.2).2 = Some sb /\
         submission_a c = sub_id sa /\ submission_b c = sub_id sb)).
    { intros k ij c Hc. exact Hc. }
    eapply Forall3_Forall2_lr; [|exact Hall].
    intros e c cmp (sa & sb & gen & conf & Ha & Hb & -> & ->).
    by exists sa, sb.
  - destruct (Z.le_gt_cases 2 (len subs)) as [Hn|Hn].
    + rewrite pair_indices_length by done. lia.
    + rewrite pair_indices_small by lia. unfold len. cbn [length]. lia.
  - intros i Hi. by apply pair_indices_earlier.
Qed.

(** C8.  Every grade result and every comparison, anchors included, has
    one call record of its own: the artifact holds as many call records
    as grade results and comparisons together, and, in the order of
    creation, the supporting-call list of each entry is the one-element
    list of the identifier of its call record.  With at least three
    submissions the run completes and the saved artifact holds
    [n + (2n-3) + 3] call records. *)
Theorem call_records_correct subs now path out acc seed desc w0 :
  let n := len subs in
  let r := create_egf_with_comparisons subs now path out acc seed desc w0 in
  let e := egf r.2 in
  len (llm_calls e) = len (grade_results e) + len (comparisons e) /\
  ((fun c => [call_id c]) <$> llm_calls e) =
    (gr_call_ids <$> grade_results e) ++ (cmp_call_ids <$> comparisons e) /\
  len (grade_results e) = n /\
  (3 <= n ->
     r.1 = inr tt /\ saved r.2 = Some (out, e) /\
     len (comparisons e) = (2 * n - 3) + 3 /\
     len (llm_calls e) = n + (2 * n - 3) + 3).
Proof.
  cbv zeta.
  destruct (run_outcome subs now path out acc seed desc w0)
    as (w' & gs & ccs & cmps & Hrun & Hs & Hgs & Hall & He).
  rewrite Hrun. cbn [fst snd]. rewrite He.
  cbn [llm_calls grade_results comparisons].
  pose proof (Forall2_length _ _ _ Hgs) as Hl1.
  pose proof (Forall3_length_lm _ _ _ _ Hall) as Hl2.
  pose proof (Forall3_length_lr _ _ _ _ Hall) as Hl3.
  rewrite enumerate_length in Hl1. rewrite enumerate_length in Hl2.
  rewrite enumerate_length in Hl3.
  assert (len gs = len subs) as Hgl by (unfold len; lia).
  split; [|split; [|split; [done|]]].
  - unfold len. rewrite !length_app, !length_fmap, !enumerate_length. lia.
  - rewrite !fmap_app, <- !list_fmap_compose. f_equal; [|f_equal].
    + eapply Forall2_fmap_eq; [|exact Hgs].
      intros [i sub] g (gen & dist & _ & ->). reflexivity.
    + eapply Forall3_fmap_eq; [|exact Hall].
      intros e c cmp (sa & sb & gen & conf & _ & _ & -> & ->). reflexivity.
  - intros Hn. rewrite (proj2 (Z.leb_le 3 (len subs)) Hn) in *.
    split; [done|]. split; [by rewrite Hs, He|].
    pose proof (pair_indices_length (len subs)) as Hp.
    unfold len in *.
    rewrite !length_app, !length_fmap, !enumerate_length, !length_take. lia.
Qed.

(** C9.  With fewer than three submissions the run raises [IndexError]
    from [submissions[i]] in the anchor loop: all grade results, all pair
    comparisons and one anchor per submission have been added, and
    [egf.save] is not reached.  A run completes exactly when there are at
    least three submissions. *)
Theorem short_run_raises subs now path out acc seed desc w0 :
  let n := len subs in
  let r := create_egf_with_comparisons subs now path out acc seed desc w0 in
  (n < 3 ->
     r.1 = inl IndexError /\
     saved r.2 = saved w0 /\
     len (grade_results (egf r.2)) = n /\
     len (comparisons (egf r.2)) = len (pair_indices n) + n) /\
  (r.1 = inr tt <-> 3 <= n).
Proof.
  cbv zeta.
  destruct (run_outcome subs now path out acc seed desc w0)
    as (w' & gs & ccs & cmps & Hrun & Hs & Hgs & Hall & He).
  rewrite Hrun. cbn [fst snd].
  pose proof (Forall2_length _ _ _ Hgs) as Hl1.
  pose proof (Forall3_length_lr _ _ _ _ Hall) as Hl3.
  rewrite enumerate_length in Hl1. rewrite enumerate_length in Hl3.
  split.
  - intros Hn. rewrite (proj2 (Z.leb_gt 3 (len subs))) in * by lia.
    split; [done|]. split; [done|]. rewrite He.
    cbn [grade_results comparisons]. unfold len in *.
    rewrite !length_app, !length_fmap, !enumerate_length, !length_take. lia.
  - destruct (Z.leb_spec 3 (len subs)); split; (done || lia).
Qed.

End Artifact.

Lemma pairing_correct_witness :
  2 <= len Scenario.submissions /\
  len (pair_indices (len Scenario.submissions)) =
    2 * len Scenario.submissions - 3.
Proof.
  split; [vm_compute; discriminate|].
  pose proof (pairing_correct Scenario.submissions 0 "in.edf" "out.egf" 0.8 42
                "d" Scenario.fresh) as (_ & _ & _ & _ & Hlen & _).
  apply Hlen. vm_compute. discriminate.
Defined.

Lemma call_records_correct_witness :
  3 <= len Scenario.submissions /\
  len (llm_calls (egf (Scenario.run Scenario.submissions 0 0.8).2)) =
    len Scenario.submissions + (2 * len Scenario.submissions - 3) + 3.
Proof.
  split; [vm_compute; discriminate|].
  pose proof (call_records_correct Scenario.submissions 0
                "d/nathan_low_quality_sec_a.edf" "d/comparisons_80pct.egf"
                0.8 42 "Grading with 80% comparison accuracy" Scenario.fresh)
    as (_ & _ & _ & Hn).
  apply Hn. vm_compute. discriminate.
Defined.

Lemma short_run_raises_witness :
  len (take 2 Scenario.submissions) < 3 /\
  (Scenario.run (take 2 Scenario.submissions) 0 0.8).1 = inl IndexError.
Proof.
  split; [reflexivity|].
  pose proof (short_run_raises (take 2 Scenario.submissions) 0
                "d/nathan_low_quality_sec_a.edf" "d/comparisons_80pct.egf"
                0.8 42 "Grading with 80% comparison accuracy" Scenario.fresh)
    as (Hshort & _).
  apply Hshort. reflexivity.
Defined.

(** ** Anchors, accuracy and the text of the grading call *)

Lemma Forall2_enumerate_fmap {A B} (Q : A -> B -> Prop) (f : Z * A -> B)
    (l : list A) :
  (forall i a, Q a (f (i, a))) -> Forall2 Q l (f <$> enumerate l).
Proof.
  intros HQ. unfold enumerate, len. generalize 0 as m.
  induction l as [|a l IH]; intros m.
  - rewrite seqZ_nil by done. constructor.
  - rewrite seqZ_cons by (cbn [length]; lia).
    replace (Z.pred (Z.of_nat (length (a :: l)))) with (Z.of_nat (length l))
      by (cbn [length]; lia).
    cbn. constructor; [apply HQ|apply IH].
Qed.

Section Anchors.
Context {G : Type} `{RandomSource G}.
Implicit Types (w : World G) (sub : Submission).

(** X13.  On at least three submissions the comparisons of the artifact
    are the pair comparisons followed by three anchor comparisons, one for
    each of the first three submissions, in their order.  Both
    participants of a pair comparison are identifiers of the submission
    set.  An anchor comparison has the submission as first participant and
    as winner, the fixed identifier "external_anchor_exemplar" as second
    participant, and the fixed confidence 0.85. *)
Theorem anchor_comparisons_correct subs now path out acc seed desc w0 :
  3 <= len subs ->
  let r := create_egf_with_comparisons subs now path out acc seed desc w0 in
  let ids := sub_id <$> subs in
  exists cmps anchors,
    r.1 = inr tt /\
    comparisons (egf r.2) = cmps ++ anchors /\
    length cmps = length (pair_indices (len subs)) /\
    Forall (fun c => submission_a c ∈ ids /\ submission_b c ∈ ids) cmps /\
    length anchors = 3%nat /\
    Forall2 (fun sub c =>
               submission_a c = sub_id sub /\
               submission_b c = "external_anchor_exemplar" /\
               winner c = "a" /\
               confidence c = 0.85%float)
      (take 3 subs) anchors.
Proof.
  intros Hn. cbv zeta.
  destruct (run_outcome subs now path out acc seed desc w0)
    as (w' & gs & ccs & cmps & Hrun & _ & _ & Hall & He).
  rewrite Hrun. cbn [fst snd]. rewrite (proj2 (Z.leb_le 3 (len subs)) Hn).
  exists cmps, ((fun e => anchor_comparison now e.1 e.2)
                  <$> enumerate (take 3 subs)).
  split; [done|]. split; [by rewrite He|].
  split; [|split; [|split]].
  - pose proof (Forall3_length_lr _ _ _ _ Hall) as Hl.
    by rewrite enumerate_length in Hl.
  - eapply Forall2_Forall_r; [|eapply Forall3_Forall2_lr; [|exact Hall]].
    + intros e c Hc. exact Hc.
    + intros e c cmp (sa & sb & gen & conf & Ha & Hb & _ & ->).
      cbn [submission_a submission_b comparison_record].
      split; apply list_elem_of_fmap_2; eapply list_elem_of_lookup_2; eauto.
  - rewrite length_fmap, enumerate_length, length_take. unfold len in Hn. lia.
  - apply Forall2_enumerate_fmap. intros i sub. by repeat split.
Qed.

End Anchors.

Lemma anchor_comparisons_correct_witness :
  3 <= len Scenario.submissions /\
  (Scenario.run Scenario.submissions 0 0.8).1 = inr tt.
Proof.
  split; [vm_compute; discriminate|].
  destruct (anchor_comparisons_correct Scenario.submissions 0
              "d/nathan_low_quality_sec_a.edf" "d/comparisons_80pct.egf"
              0.8 42 "Grading with 80% comparison accuracy" Scenario.fresh)
    as (cmps & anchors & Hr & _); [vm_compute; discriminate|].
  exact Hr.
Defined.

(** C7.  The run on the three submissions of [Scenario.tainted], the
    first of which carries the identifier "external_anchor_exemplar",
    completes with three pair comparisons followed by three anchor
    comparisons.  The second participant of each anchor comparison is that
    identifier, and it is the identifier of a submission of the set: what
    the comment of line 164 says of it, "External - not in EDF", does not
    hold. *)
Theorem anchor_sentinel_in_submission_set :
  let r := Scenario.run Scenario.tainted 0 0.8 in
  let ids := sub_id <$> Scenario.tainted in
  r.1 = inr tt /\
  length (pair_indices (len Scenario.tainted)) = 3%nat /\
  length (comparisons (egf r.2)) = 6%nat /\
  Forall (fun c => submission_b c = "external_anchor_exemplar" /\
                   submission_b c ∈ ids)
    (drop 3 (comparisons (egf r.2))).
Proof.
  cbv zeta. split; [by vm_compute|]. split; [by vm_compute|].
  split; [by vm_compute|]. vm_compute. repeat constructor.
Qed.


(** ** The text of the grading call *)

Lemma grade_text_inj (a b : Z) : grade_text a = grade_text b -> a = b.
Proof.
  unfold grade_text, str. intros Heq.
  apply (inj (String.append "Grade: ")) in Heq.
  apply string_app_inv_tail in Heq. by apply (inj pretty) in Heq.
Qed.

Section GradeText.
Context {G : Type} `{RandomSourceSpec G}.
Implicit Types (w : World G) (sub : Submission).

(** C10, as amended.  The output text of the grading call states the
    ground-truth grade of the submission, not the predicted grade.  For a
    ground-truth grade [g] in 0..10 the stated grade differs from the
    predicted grade of the grade result exactly when the drawn noise is
    not zero and [g + noise] stays within 0..10.  In the artifact of a
    run the [k]-th call record states the ground-truth grade of the
    [k]-th submission, and it is the supporting call of the [k]-th grade
    result; with at least three submissions this artifact is saved. *)
Theorem grade_text_correct :
  (forall ts i sub w,
     0 <= sub_grade sub <= 10 ->
     let noise := (rs_randint (-1) 1 (rng w)).1 in
     let w' := (grade_body ts (i, sub) w).2 in
     exists c g,
       llm_calls (egf w') = llm_calls (egf w) ++ [c] /\
       grade_results (egf w') = grade_results (egf w) ++ [g] /\
       gr_call_ids g = [call_id c] /\
       output_content c = grade_text (sub_grade sub) /\
       (output_content c <> grade_text (gr_grade g) <->
        noise <> 0 /\ 0 <= sub_grade sub + noise <= 10)) /\
  (forall subs now path out acc seed desc w0 (k : nat) sub,
     subs !! k = Some sub ->
     let r := create_egf_with_comparisons subs now path out acc seed desc w0 in
     exists c g,
       llm_calls (egf r.2) !! k = Some c /\
       grade_results (egf r.2) !! k = Some g /\
       gr_call_ids g = [call_id c] /\
       gr_submission_id g = sub_id sub /\
       output_content c = grade_text (sub_grade sub) /\
       (3 <= len subs -> saved r.2 = Some (out, egf r.2))).
Proof.
  split.
  - intros ts i sub w Hg. cbv zeta.
    destruct (grade_body_step ts i sub w) as (w' & dist & Hrun & _ & _ & _ & He).
    rewrite Hrun. cbn [snd].
    pose proof (rs_randint_range (-1) 1 (rng w)) as Hd.
    eexists (grade_call ts i sub), (grade_result ts i sub _ dist).
    split; [by rewrite He|]. split; [by rewrite He|].
    split; [reflexivity|]. split; [reflexivity|].
    cbn [output_content grade_call gr_grade grade_result]. split.
    + intros Hne.
      assert (clamp_grade (sub_grade sub) (rs_randint (-1) 1 (rng w)).1
                <> sub_grade sub) as Hp by (intros Heq; by rewrite Heq in Hne).
      unfold clamp_grade in Hp. lia.
    + intros Hnoise Heq%grade_text_inj. unfold clamp_grade in Heq. lia.
  - intros subs now path out acc seed desc w0 k sub Hk. cbv zeta.
    destruct (run_outcome subs now path out acc seed desc w0)
      as (w' & gs & ccs & cmps & Hrun & Hs & Hgs & _ & He).
    rewrite Hrun. cbn [snd].
    pose proof (enumerate_lookup _ _ _ Hk) as Hek.
    destruct (Forall2_lookup_l _ _ _ _ _ Hgs Hek)
      as (g & Hg & gen & dist & _ & ->).
    exists (grade_call now (Z.of_nat k) sub), (grade_result now (Z.of_nat k) sub
      (clamp_grade (sub_grade sub) (rs_randint (-1) 1 gen).1) dist).
    rewrite He. cbn [llm_calls grade_results].
    split; [|split; [done|]].
    + rewrite lookup_app_l
        by (rewrite length_fmap, enumerate_length; by eapply lookup_lt_Some).
      by rewrite list_lookup_fmap, Hek.
    + split; [reflexivity|]. split; [reflexivity|]. split; [reflexivity|].
      intros Hn. rewrite (proj2 (Z.leb_le 3 (len subs)) Hn) in Hs.
      by rewrite Hs, He.
Qed.

End GradeText.

Lemma grade_text_correct_witness :
  0 <= 5 <= 10 /\
  exists c g,
    llm_calls (egf (grade_body (G := Z) 0 (0, {| sub_id := "s"; sub_grade := 5 |})
                      Scenario.fresh).2) = [] ++ [c] /\
    grade_results (egf (grade_body (G := Z) 0
                          (0, {| sub_id := "s"; sub_grade := 5 |})
                          Scenario.fresh).2) = [] ++ [g] /\
    output_content c = grade_text 5 /\
    output_content c <> grade_text (gr_grade g).
Proof.
  split; [lia|].
  destruct (proj1 (grade_text_correct (G := Z)) 0 0
              {| sub_id := "s"; sub_grade := 5 |} Scenario.fresh)
    as (c & g & Hc & Hg & _ & Ht & Hiff); [cbn; lia|].
  exists c, g. split; [exact Hc|]. split; [exact Hg|]. split; [exact Ht|].
  apply Hiff. vm_compute. split; [discriminate|]. split; discriminate.
Defined.

(** C10 as stated fails at the boundary: with ground-truth grade 0 and
    drawn noise -1 the predicted grade is 0 again, and the text of the
    grading call states the predicted grade although the noise is not
    zero. *)
Lemma nonzero_noise_without_difference :
  ~ (forall (w : World Z) (sub : Submission),
       0 <= sub_grade sub <= 10 ->
       (rs_randint (-1) 1 (rng w)).1 <> 0 ->
       forall c g,
         last (llm_calls (egf (grade_body 0 (0, sub) w).2)) = Some c ->
         last (grade_results (egf (grade_body 0 (0, sub) w).2)) = Some g ->
         output_content c <> grade_text (gr_grade g)).
Proof.
  intros Hc.
  pose (w := {| rng := 107; egf := reference_edf "in.edf" "d";
                comparison_count := 0; saved := None |} : World Z).
  pose (sub := {| sub_id := "sub_006"; sub_grade := 0 |}).
  apply (Hc w sub ltac:(cbn; lia) ltac:(vm_compute; discriminate)
           (grade_call 0 0 sub) (grade_result 0 0 sub 0
              [0.85; 0.15; 0; 0; 0; 0; 0; 0; 0; 0; 0]%float)).
  - vm_compute. reflexivity.
  - vm_compute. reflexivity.
  - vm_compute. reflexivity.
Qed.

(** ** Two runs at different clock readings *)

Section Clock.
Context {G : Type} `{RandomSource G}.
Implicit Types (w : World G) (sub : Submission) (d : Z).

Lemma sim_ret d {A} (a : A) : sim d (mret a : M G A) (mret a).
Proof. intros w1 w2 Hs. by split. Qed.

Lemma sim_bind d {A B} (m1 m2 : M G A) (f1 f2 : A -> M G B) :
  sim d m1 m2 -> (forall a, sim d (f1 a) (f2 a)) ->
  sim d (m1 ≫= f1) (m2 ≫= f2).
Proof.
  intros Hm Hf w1 w2 Hs. destruct (Hm w1 w2 Hs) as [Hr Hs'].
  rewrite !bind_unfold.
  destruct (m1 w1) as [[e|a] w1'], (m2 w2) as [[e'|a'] w2'];
    cbn [fst snd] in *; simplify_eq; [by split|]. by apply Hf.
Qed.

Lemma sim_for_each d {A} (l : list A) (body1 body2 : A -> M G unit) :
  (forall x, sim d (body1 x) (body2 x)) ->
  sim d (for_each l body1) (for_each l body2).
Proof.
  intros Hb. induction l as [|x l IH]; [apply sim_ret|].
  cbn [for_each]. apply sim_bind; [apply Hb|]. intros _. apply IH.
Qed.

Lemma sim_lift d {A} (r : exn + A) : sim d (lift (G := G) r) (lift r).
Proof. intros w1 w2 Hs. by split. Qed.

Lemma sim_draw d {A} (f : G -> A * G) : sim d (draw f) (draw f).
Proof.
  intros w1 w2 (Hr & Hc & Hl & Hg & Hm). unfold draw. rewrite Hr.
  destruct (f (rng w1)) as [a g]. by repeat split.
Qed.

Lemma sim_gets_count d :
  sim d (gets comparison_count) (gets (G := G) comparison_count).
Proof.
  intros w1 w2 (Hr & Hc & Hl & Hg & Hm). unfold gets. cbn [fst snd].
  rewrite Hc. by repeat split.
Qed.

Lemma sim_set_count d (c : Z) :
  sim d (modify (set_comparison_count (G := G) c))
        (modify (set_comparison_count c)).
Proof. intros w1 w2 (Hr & Hc & Hl & Hg & Hm). by repeat split. Qed.

Lemma sim_set_rng d (g : G) :
  sim d (modify (set_rng g)) (modify (set_rng g)).
Proof. intros w1 w2 (Hr & Hc & Hl & Hg & Hm). by repeat split. Qed.

(** Line 27: a new artifact is empty, whatever it refers to. *)
Lemma sim_reference_edf d (path1 desc1 path2 desc2 : string) :
  sim d (modify (set_egf (G := G) (reference_edf path1 desc1)))
        (modify (set_egf (reference_edf path2 desc2))).
Proof. intros w1 w2 (Hr & Hc & Hl & Hg & Hm). by repeat split. Qed.

Lemma sim_save d (path1 path2 : string) :
  sim d (save (G := G) path1) (save path2).
Proof. intros w1 w2 (Hr & Hc & Hl & Hg & Hm). by repeat split. Qed.

Lemma sim_add_llm_call d (c : CallRecord) :
  sim d (add_llm_call (G := G) c) (add_llm_call (shift_call d c)).
Proof.
  intros w1 w2 (Hr & Hc & Hl & Hg & Hm). repeat split; [done..| | |]; cbn.
  - by rewrite Hl, fmap_app.
  - done.
  - done.
Qed.

Lemma sim_add_grade_result d (g : GradeResult) :
  sim d (add_grade_result (G := G) g) (add_grade_result (shift_grade d g)).
Proof.
  intros w1 w2 (Hr & Hc & Hl & Hg & Hm). repeat split; [done..| | |]; cbn.
  - done.
  - by rewrite Hg, fmap_app.
  - done.
Qed.

Lemma sim_add_comparison d (c : Comparison) :
  sim d (add_comparison (G := G) c) (add_comparison (shift_comparison d c)).
Proof.
  intros w1 w2 (Hr & Hc & Hl & Hg & Hm). repeat split; [done..| | |]; cbn.
  - done.
  - done.
  - by rewrite Hm, fmap_app.
Qed.

Lemma grade_call_shift d ts i sub :
  grade_call (ts + d) i sub = shift_call d (grade_call ts i sub).
Proof. unfold grade_call, shift_call. cbn. f_equal. lia. Qed.

Lemma grade_result_shift d ts i sub p dist :
  grade_result (ts + d) i sub p dist =
  shift_grade d (grade_result ts i sub p dist).
Proof. unfold grade_result, shift_grade. cbn. f_equal. lia. Qed.

Lemma comparison_call_shift d ts k sa sb win :
  comparison_call (ts + d) k sa sb win =
  shift_call d (comparison_call ts k sa sb win).
Proof. unfold comparison_call, shift_call. cbn. f_equal. lia. Qed.

Lemma comparison_record_shift d ts k sa sb win conf :
  comparison_record (ts + d) k sa sb win conf =
  shift_comparison d (comparison_record ts k sa sb win conf).
Proof. unfold comparison_record, shift_comparison. cbn. f_equal. lia. Qed.

Lemma anchor_call_shift d ts i sub :
  anchor_call (ts + d) i sub = shift_call d (anchor_call ts i sub).
Proof. unfold anchor_call, shift_call. cbn. f_equal. lia. Qed.

Lemma anchor_comparison_shift d ts i sub :
  anchor_comparison (ts + d) i sub =
  shift_comparison d (anchor_comparison ts i sub).
Proof. unfold anchor_comparison, shift_comparison. cbn. f_equal. lia. Qed.

Lemma sim_grade_body d ts entry :
  sim d (grade_body ts entry) (grade_body (ts + d) entry).
Proof.
  destruct entry as [i sub]. unfold grade_body.
  apply sim_bind; [rewrite grade_call_shift; apply sim_add_llm_call|].
  intros _. apply sim_bind; [apply sim_draw|]. intros noise.
  apply sim_bind; [apply sim_lift|]. intros dist.
  rewrite grade_result_shift. apply sim_add_grade_result.
Qed.

Lemma sim_compare_body d ts acc subs ij :
  sim d (compare_body ts acc subs ij) (compare_body (ts + d) acc subs ij).
Proof.
  destruct ij as [i j]. unfold compare_body.
  apply sim_bind; [apply sim_lift|]. intros sa.
  apply sim_bind; [apply sim_lift|]. intros sb.
  apply sim_bind; [apply sim_gets_count|]. intros k.
  apply sim_bind; [apply sim_draw|]. intros win.
  apply sim_bind; [rewrite comparison_call_shift; apply sim_add_llm_call|].
  intros _. apply sim_bind; [apply sim_draw|]. intros conf.
  apply sim_bind;
    [rewrite comparison_record_shift; apply sim_add_comparison|].
  intros _. apply sim_set_count.
Qed.

Lemma sim_anchor_body d ts subs i :
  sim d (anchor_body (G := G) ts subs i) (anchor_body (ts + d) subs i).
Proof.
  unfold anchor_body.
  apply sim_bind; [apply sim_lift|]. intros sub.
  apply sim_bind; [rewrite anchor_call_shift; apply sim_add_llm_call|].
  intros _. rewrite anchor_comparison_shift. apply sim_add_comparison.
Qed.

(** A later clock reading moves every timestamp; the paths and the
    description leave no trace in the three collections. *)
Lemma sim_create d subs now path1 out1 desc1 path2 out2 desc2 acc seed :
  sim d (create_egf_with_comparisons subs now path1 out1 acc seed desc1)
        (create_egf_with_comparisons subs (now + d) path2 out2 acc seed desc2).
Proof.
  unfold create_egf_with_comparisons.
  apply sim_bind; [apply sim_reference_edf|]. intros _.
  apply sim_bind; [apply sim_set_rng|]. intros _.
  apply sim_bind; [apply sim_for_each, sim_grade_body|]. intros _.
  apply sim_bind; [apply sim_set_count|]. intros _.
  apply sim_bind.
  { apply sim_for_each. intros i. apply sim_for_each. intros j.
    apply sim_compare_body. }
  intros _. apply sim_bind; [apply sim_for_each, sim_anchor_body|].
  intros _. apply sim_save.
Qed.

Lemma shift_call_0 (l : list CallRecord) : shift_call 0 <$> l = l.
Proof.
  rewrite <- (list_fmap_id l) at 2. apply list_fmap_ext.
  intros _ [] _. unfold shift_call. cbn. f_equal. lia.
Qed.

Lemma shift_grade_0 (l : list GradeResult) : shift_grade 0 <$> l = l.
Proof.
  rewrite <- (list_fmap_id l) at 2. apply list_fmap_ext.
  intros _ [] _. unfold shift_grade. cbn. f_equal. lia.
Qed.

Lemma shift_comparison_0 (l : list Comparison) :
  shift_comparison 0 <$> l = l.
Proof.
  rewrite <- (list_fmap_id l) at 2. apply list_fmap_ext.
  intros _ [] _. unfold shift_comparison. cbn. f_equal. lia.
Qed.

Lemma for_each_commute {A} (f : World G -> World G) (body : A -> M G unit)
    (l : list A) w :
  (forall x w1, body x (f w1) = let (r, w') := body x w1 in (r, f w')) ->
  for_each l body (f w) = let (r, w') := for_each l body w in (r, f w').
Proof.
  intros Hb. revert w. induction l as [|x l IH]; intros w; [done|].
  cbn [for_each]. rewrite !bind_unfold, Hb.
  destruct (body x w) as [[e|[]] w1]; [done|]. apply IH.
Qed.

(** The grading loop neither reads nor writes [comparison_count]. *)
Lemma grade_body_count ts entry (c : Z) w :
  grade_body ts entry (set_comparison_count c w) =
  let (r, w') := grade_body ts entry w in (r, set_comparison_count c w').
Proof.
  destruct entry as [i sub].
  unfold grade_body, add_llm_call, add_grade_result, modify, draw, lift.
  rewrite !bind_unfold. cbn [rng set_egf set_comparison_count].
  destruct (rs_randint (-1) 1 (rng w)) as [noise g'].
  rewrite !bind_unfold.
  by destruct (build_dist (clamp_grade (sub_grade sub) noise)).
Qed.

(** A run starts by replacing the artifact, the generator state and,
    before its first use, the counter. *)
Lemma create_start subs now path out acc seed desc w :
  create_egf_with_comparisons subs now path out acc seed desc w =
  create_egf_with_comparisons subs now path out acc seed desc
    (set_comparison_count 0
       (set_rng (rs_seed seed) (set_egf (reference_edf path desc) w))).
Proof.
  unfold create_egf_with_comparisons.
  rewrite !(bind_returns _ _ _ _ _ (modify_run _ _)).
  set (S := set_rng (rs_seed seed) (set_egf (reference_edf path desc) w)).
  change (set_rng (rs_seed seed) (set_egf (reference_edf path desc)
            (set_comparison_count 0 S))) with (set_comparison_count 0 S).
  destruct (grade_loop_run now subs path desc S eq_refl)
    as (w1 & gs & Hrun & _).
  rewrite 2!bind_unfold.
  rewrite (for_each_commute (set_comparison_count 0))
    by (intros; apply grade_body_count).
  rewrite Hrun. reflexivity.
Qed.

(** Two runs with the same submissions, accuracy and seed, from any two
    states, at clock readings [now] and [now + d]. *)
Lemma two_runs d subs now path1 out1 desc1 path2 out2 desc2 acc seed
    (w1 w2 : World G) :
  (create_egf_with_comparisons subs (now + d) path2 out2 acc seed desc2 w2).1
  = (create_egf_with_comparisons subs now path1 out1 acc seed desc1 w1).1 /\
  shifted d
    (create_egf_with_comparisons subs now path1 out1 acc seed desc1 w1).2
    (create_egf_with_comparisons subs (now + d) path2 out2 acc seed desc2
       w2).2.
Proof.
  rewrite (create_start _ _ _ _ _ _ _ w1), (create_start _ _ _ _ _ _ _ w2).
  apply sim_create. by repeat split.
Qed.

(** C3, as amended.  Two runs on the same submissions, seed and accuracy
    end the same way and leave the random generator in the same state,
    whatever the generator state, the artifact and the counter were when
    each run started, and whatever the paths and the description of each.
    Their call records, grade results and comparisons agree in every field
    except the timestamps, which are moved by the difference of the two
    clock readings.  With equal clock readings the three sequences are
    equal. *)
Theorem runs_agree_up_to_clock subs acc seed now1 now2 path1 path2 out1 out2
    desc1 desc2 (w1 w2 : World G) :
  let r1 :=
    create_egf_with_comparisons subs now1 path1 out1 acc seed desc1 w1 in
  let r2 :=
    create_egf_with_comparisons subs now2 path2 out2 acc seed desc2 w2 in
  r2.1 = r1.1 /\
  rng r2.2 = rng r1.2 /\
  llm_calls (egf r2.2) = shift_call (now2 - now1) <$> llm_calls (egf r1.2) /\
  grade_results (egf r2.2) =
    shift_grade (now2 - now1) <$> grade_results (egf r1.2) /\
  comparisons (egf r2.2) =
    shift_comparison (now2 - now1) <$> comparisons (egf r1.2) /\
  (now1 = now2 ->
     llm_calls (egf r2.2) = llm_calls (egf r1.2) /\
     grade_results (egf r2.2) = grade_results (egf r1.2) /\
     comparisons (egf r2.2) = comparisons (egf r1.2)).
Proof.
  cbv zeta.
  pose proof (two_runs (now2 - now1) subs now1 path1 out1 desc1 path2 out2
                desc2 acc seed w1 w2) as Hruns.
  replace (now1 + (now2 - now1)) with now2 in Hruns by lia.
  destruct Hruns as (Hr & Hg & _ & Hl & Hgs & Hm).
  split; [done|]. split; [done|].
  split; [done|]. split; [done|]. split; [done|].
  intros ->. rewrite Z.sub_diag in Hl, Hgs, Hm.
  by rewrite shift_call_0 in Hl; rewrite shift_grade_0 in Hgs;
     rewrite shift_comparison_0 in Hm.
Qed.

End Clock.

(** C3 as stated fails: the timestamps of two runs that read different
    clock values differ. *)
Lemma clock_changes_timestamps :
  ~ (forall now1 now2 : Z,
       grade_results (egf (Scenario.run Scenario.submissions now1 0.8).2) =
       grade_results (egf (Scenario.run Scenario.submissions now2 0.8).2) /\
       comparisons (egf (Scenario.run Scenario.submissions now1 0.8).2) =
       comparisons (egf (Scenario.run Scenario.submissions now2 0.8).2)).
Proof.
  intros Hc. destruct (Hc 0 1) as [Hg _].
  apply (f_equal (fmap graded_at)) in Hg. vm_compute in Hg. discriminate.
Qed.

Lemma runs_agree_up_to_clock_witness :
  (0 = 0 /\
   comparisons
     (egf (create_egf_with_comparisons Scenario.submissions 0 "b.edf" "b.egf"
             0.8 42 "second" Scenario.used).2) =
   comparisons (egf (Scenario.run Scenario.submissions 0 0.8).2)) /\
  grade_results
    (egf (create_egf_with_comparisons Scenario.submissions 1000 "b.edf"
            "b.egf" 0.8 42 "second" Scenario.used).2) =
  shift_grade (1000 - 0)
    <$> grade_results (egf (Scenario.run Scenario.submissions 0 0.8).2).
Proof.
  split.
  - split; [reflexivity|].
    pose proof (runs_agree_up_to_clock Scenario.submissions 0.8 42 0 0
                  "d/nathan_low_quality_sec_a.edf" "b.edf"
                  "d/comparisons_80pct.egf" "b.egf"
                  "Grading with 80% comparison accuracy" "second"
                  Scenario.fresh Scenario.used)
      as (_ & _ & _ & _ & _ & Hsame).
    apply Hsame. reflexivity.
  - pose proof (runs_agree_up_to_clock Scenario.submissions 0.8 42 0 1000
                  "d/nathan_low_quality_sec_a.edf" "b.edf"
                  "d/comparisons_80pct.egf" "b.egf"
                  "Grading with 80% comparison accuracy" "second"
                  Scenario.fresh Scenario.used)
      as (_ & _ & _ & Hgs & _).
    exact Hgs.
Defined.

(** * Further properties of the script *)

(** ** Grade results of a run *)

Lemma build_dist_shape (p : Z) (D : list float) :
  0 <= p <= 10 -> build_dist p = inr D ->
  length D = 11%nat /\
  fsum D = 1%float /\
  Forall (fun y => (0 <=? y)%float = true) D /\
  exists x, D !! Z.to_nat p = Some x /\
            Forall (fun y => (y <=? x)%float = true) D.
Proof.
  intros Hp%grade_cases HD.
  repeat (apply elem_of_cons in Hp as [->|Hp]);
    [..|by apply elem_of_nil in Hp].
  all: vm_compute in HD; injection HD as <-.
  all: split; [reflexivity|]. all: split; [vm_compute; reflexivity|].
  all: split;
    [repeat (apply Forall_cons; split; [vm_compute; reflexivity|]);
     by apply Forall_nil|].
  all: eexists; split; [reflexivity|].
  all: repeat (apply Forall_cons; split; [vm_compute; reflexivity|]).
  all: by apply Forall_nil.
Qed.

Section GradeResults.
Context {G : Type} `{RandomSource G}.

(** X1.  Whatever the ground-truth grades are, inside 0..10 or not, a run
    adds one grade result per submission, in the order of the
    submissions, each with a predicted grade in 0..10 and a distribution
    of 11 non-negative entries that sum to 1.0 and are largest at the
    predicted grade. *)
Theorem grade_results_well_formed subs now path out acc seed desc
    (w0 : World G) :
  let e :=
    egf (create_egf_with_comparisons subs now path out acc seed desc w0).2 in
  gr_submission_id <$> grade_results e = sub_id <$> subs /\
  Forall (fun g =>
            0 <= gr_grade g <= 10 /\
            length (grade_distribution g) = 11%nat /\
            fsum (grade_distribution g) = 1%float /\
            Forall (fun y => (0 <=? y)%float = true) (grade_distribution g) /\
            exists x,
              grade_distribution g !! Z.to_nat (gr_grade g) = Some x /\
              Forall (fun y => (y <=? x)%float = true) (grade_distribution g))
    (grade_results e).
Proof.
  cbv zeta.
  destruct (run_outcome subs now path out acc seed desc w0)
    as (w' & gs & ccs & cmps & Hrun & _ & Hgs & _ & He).
  rewrite Hrun. cbn [snd]. rewrite He. cbn [grade_results]. split.
  - symmetry. apply (Forall2_fmap_eq
      (fun sub g => gr_submission_id g = sub_id sub)); [by intros|].
    eapply Forall2_enumerate; [|exact Hgs].
    intros i sub g (gen & dist & _ & ->). reflexivity.
  - eapply Forall2_Forall_r; [|exact Hgs].
    intros [i sub] g (gen & dist & Hd & ->).
    cbn [gr_grade grade_distribution grade_result fst snd] in *.
    split; [apply clamp_grade_range|].
    by apply build_dist_shape; [apply clamp_grade_range|].
Qed.

End GradeResults.

(** ** Identifiers *)

Lemma pretty_N_go_length (x : N) (s : string) :
  (String.length s <= String.length (pretty_N_go x s))%nat.
Proof.
  revert s. induction (N.lt_wf_0 x) as [x _ IH]; intros s.
  destruct (decide (x = 0%N)) as [->|Hx]; [by rewrite pretty_N_go_0|].
  rewrite pretty_N_go_step by lia.
  etrans; [|apply IH; apply N.div_lt; lia]. cbn. lia.
Qed.

Lemma pretty_length_large (i : Z) :
  1000 <= i -> (4 <= String.length (pretty i))%nat.
Proof.
  intros Hi. destruct i as [|p|p]; [lia| |lia].
  unfold pretty, pretty_Z, pretty, pretty_positive, pretty, pretty_N.
  case_decide; [done|].
  assert (1000 <= N.pos p)%N as Hp by lia.
  assert (0 < N.pos p `div` 10)%N by (apply N.div_str_pos; lia).
  assert (0 < (N.pos p `div` 10) `div` 10)%N.
  { apply N.div_str_pos. split; [lia|].
    apply N.div_le_lower_bound; lia. }
  assert (0 < ((N.pos p `div` 10) `div` 10) `div` 10)%N.
  { apply N.div_str_pos. split; [lia|].
    apply N.div_le_lower_bound; [lia|].
    apply N.div_le_lower_bound; lia. }
  rewrite 4!pretty_N_go_step by (done || lia).
  etrans; [|apply pretty_N_go_length]. cbn. lia.
Qed.

Lemma fmt_03d_large (i : Z) : 1000 <= i -> fmt_03d i = pretty i.
Proof.
  intros Hi. pose proof (pretty_length_large i Hi) as Hl. unfold fmt_03d.
  rewrite (proj2 (Z.ltb_ge i 0)) by lia. rewrite Z.abs_eq by lia.
  replace (3 - String.length "" - String.length (pretty i))%nat with 0%nat
    by (cbn; lia).
  reflexivity.
Qed.

Lemma fmt_03d_small_length :
  Forall (fun i => String.length (fmt_03d i) = 3%nat) (seqZ 0 1000).
Proof. apply (bool_decide_unpack _). vm_compute. exact I. Qed.

Lemma fmt_03d_small_NoDup : NoDup (fmt_03d <$> seqZ 0 1000).
Proof. apply (bool_decide_unpack _). vm_compute. exact I. Qed.

(** [f"{i:03d}"] tells non-negative integers apart. *)
Lemma fmt_03d_inj (i j : Z) :
  0 <= i -> 0 <= j -> fmt_03d i = fmt_03d j -> i = j.
Proof.
  intros Hi Hj Heq.
  assert (forall k, 0 <= k < 1000 -> String.length (fmt_03d k) = 3%nat)
    as Hsmall.
  { intros k Hk. eapply (proj1 (Forall_forall _ _) fmt_03d_small_length).
    apply elem_of_seqZ. lia. }
  assert (forall k, 1000 <= k -> (4 <= String.length (fmt_03d k))%nat)
    as Hlarge.
  { intros k Hk. rewrite fmt_03d_large by done. by apply pretty_length_large. }
  destruct (Z.lt_ge_cases i 1000) as [Hi'|Hi'],
    (Z.lt_ge_cases j 1000) as [Hj'|Hj'].
  - pose proof fmt_03d_small_NoDup as Hnd.
    assert (Z.to_nat i = Z.to_nat j) as Hij; [|lia].
    eapply (proj1 (NoDup_alt _) Hnd);
      rewrite list_lookup_fmap, lookup_seqZ_lt by lia; cbn.
    + reflexivity.
    + rewrite !Z.add_0_l, !Z2Nat.id by lia. by rewrite Heq.
  - specialize (Hsmall i ltac:(lia)). specialize (Hlarge j Hj').
    rewrite Heq in Hsmall. lia.
  - specialize (Hsmall j ltac:(lia)). specialize (Hlarge i Hi').
    rewrite Heq in Hlarge. lia.
  - rewrite !fmt_03d_large in Heq by done. by apply (inj pretty) in Heq.
Qed.

Lemma fmap_enumerate_index {A B} (h : Z -> B) (l : list A) :
  (fun e : Z * A => h e.1) <$> enumerate l = h <$> seqZ 0 (len l).
Proof.
  unfold enumerate. change (fun e : Z * A => h e.1) with (h ∘ @fst Z A).
  rewrite (list_fmap_compose (@fst Z A) h).
  rewrite fst_zip; [done|]. rewrite length_seqZ. unfold len. lia.
Qed.

Lemma Forall3_fmap_eq_lm {A B C D} (P : A -> B -> C -> Prop) (f : A -> D)
    (g : B -> D) (l : list A) (bs : list B) (cs : list C) :
  (forall a b c, P a b c -> f a = g b) -> Forall3 P l bs cs -> f <$> l = g <$> bs.
Proof.
  intros HP. induction 1 as [|a b c l bs cs Habc _ IH]; [done|].
  cbn. by rewrite (HP a b c Habc), IH.
Qed.

Lemma Forall3_fmap_eq_lr {A B C D} (P : A -> B -> C -> Prop) (f : A -> D)
    (g : C -> D) (l : list A) (bs : list B) (cs : list C) :
  (forall a b c, P a b c -> f a = g c) -> Forall3 P l bs cs -> f <$> l = g <$> cs.
Proof.
  intros HP. induction 1 as [|a b c l bs cs Habc _ IH]; [done|].
  cbn. by rewrite (HP a b c Habc), IH.
Qed.

(** Numbered identifiers with a common prefix are pairwise distinct. *)
Lemma numbered_NoDup (prefix : string) (n : Z) :
  NoDup ((fun i => prefix +:+ fmt_03d i) <$> seqZ 0 n).
Proof.
  apply NoDup_fmap_2_strong; [|apply NoDup_seqZ].
  intros i j Hi%elem_of_seqZ Hj%elem_of_seqZ Heq.
  apply (inj (String.append prefix)) in Heq. apply fmt_03d_inj; (done || lia).
Qed.

Section Identifiers.
Context {G : Type} `{RandomSource G}.

(** X2.  In the artifact of every run the identifiers of the call records are
    pairwise distinct, and so are the identifiers of the comparisons,
    anchors included, however many submissions there are. *)
Theorem identifiers_unique subs now path out acc seed desc (w0 : World G) :
  let e :=
    egf (create_egf_with_comparisons subs now path out acc seed desc w0).2 in
  NoDup (call_id <$> llm_calls e) /\
  NoDup (comparison_id <$> comparisons e).
Proof.
  cbv zeta.
  destruct (run_outcome subs now path out acc seed desc w0)
    as (w' & gs & ccs & cmps & Hrun & _ & _ & Hall & He).
  rewrite Hrun. cbn [snd]. rewrite He. cbn [llm_calls comparisons].
  rewrite !fmap_app, <- !list_fmap_compose.
  assert ((fun e : Z * (Z * Z) => "comp_call_" +:+ fmt_03d e.1)
            <$> enumerate (pair_indices (len subs)) = call_id <$> ccs) as <-.
  { eapply Forall3_fmap_eq_lm; [|exact Hall].
    by intros e c cmp (sa & sb & gen & conf & _ & _ & -> & _). }
  assert ((fun e : Z * (Z * Z) => "comp_" +:+ fmt_03d e.1)
            <$> enumerate (pair_indices (len subs))
          = comparison_id <$> cmps) as <-.
  { eapply Forall3_fmap_eq_lr; [|exact Hall].
    by intros e c cmp (sa & sb & gen & conf & _ & _ & _ & ->). }
  change (call_id ∘ (fun e : Z * Submission => grade_call now e.1 e.2))
    with (fun e : Z * Submission => "grade_call_" +:+ fmt_03d e.1).
  change (call_id ∘ (fun e : Z * Submission => anchor_call now e.1 e.2))
    with (fun e : Z * Submission => "ext_comp_call_" +:+ fmt_03d e.1).
  change (comparison_id ∘
            (fun e : Z * Submission => anchor_comparison now e.1 e.2))
    with (fun e : Z * Submission => "ext_comp_" +:+ fmt_03d e.1).
  rewrite !(fmap_enumerate_index (fun i => _ +:+ fmt_03d i)).
  split.
  - apply NoDup_app. split; [apply numbered_NoDup|]. split.
    + intros x (i & -> & _)%list_elem_of_fmap Hin.
      apply elem_of_app in Hin as [Hin|Hin];
        apply list_elem_of_fmap in Hin as (k & Hk & _); simpl in Hk;
        discriminate.
    + apply NoDup_app. split; [apply numbered_NoDup|].
      split; [|apply numbered_NoDup].
      intros x (i & -> & _)%list_elem_of_fmap Hin.
      apply list_elem_of_fmap in Hin as (k & Hk & _); simpl in Hk.
      discriminate.
  - apply NoDup_app. split; [apply numbered_NoDup|].
    split; [|apply numbered_NoDup].
    intros x (i & -> & _)%list_elem_of_fmap Hin.
    apply list_elem_of_fmap in Hin as (k & Hk & _); simpl in Hk.
    discriminate.
Qed.

End Identifiers.

(** ** Timestamps *)

Lemma increasing_affine (a n : Z) :
  increasing ((fun i => a + i * 1000) <$> seqZ 0 n).
Proof.
  intros i j x y Hij Hx Hy. rewrite list_lookup_fmap in Hx, Hy.
  destruct (seqZ 0 n !! i) as [xi|] eqn:Hi; [|done].
  destruct (seqZ 0 n !! j) as [xj|] eqn:Hj; [|done].
  apply lookup_seqZ in Hi as [-> _]. apply lookup_seqZ in Hj as [-> _].
  cbn in Hx, Hy. simplify_eq. lia.
Qed.

Lemma increasing_app (l1 l2 : list Z) :
  increasing l1 -> increasing l2 ->
  (forall x y, x ∈ l1 -> y ∈ l2 -> x < y) ->
  increasing (l1 ++ l2).
Proof.
  intros H1 H2 H12 i j x y Hij Hx Hy.
  apply lookup_app_Some in Hx as [Hx|[Hi Hx]];
    apply lookup_app_Some in Hy as [Hy|[Hj Hy]].
  - by eapply H1.
  - eapply H12; by eapply list_elem_of_lookup_2.
  - apply lookup_lt_Some in Hy. lia.
  - eapply (H2 (i - length l1)%nat (j - length l1)%nat); [lia|done..].
Qed.

Lemma lookup_app3_mid {A} (l1 l2 l3 : list A) (k : nat) (x : A) :
  l2 !! k = Some x -> (l1 ++ l2 ++ l3) !! (length l1 + k)%nat = Some x.
Proof.
  intros Hx. rewrite lookup_app_r by lia.
  replace (length l1 + k - length l1)%nat with k by lia.
  by apply lookup_app_l_Some.
Qed.

Lemma lookup_app3_last {A} (l1 l2 l3 : list A) (k : nat) (x : A) :
  l3 !! k = Some x ->
  (l1 ++ l2 ++ l3) !! (length l1 + length l2 + k)%nat = Some x.
Proof.
  intros Hx. rewrite lookup_app_r by lia. rewrite lookup_app_r by lia.
  by replace (length l1 + length l2 + k - length l1 - length l2)%nat
    with k by lia.
Qed.

Lemma elem_of_affine (a n x : Z) :
  x ∈ (fun i => a + i * 1000) <$> seqZ 0 n -> a <= x < a + n * 1000.
Proof.
  intros (i & -> & Hi%elem_of_seqZ)%list_elem_of_fmap. lia.
Qed.

Section Timestamps.
Context {G : Type} `{RandomSource G}.

(** The timestamps of the call records, in the order of creation. *)
Lemma call_timestamps subs now path out acc seed desc (w0 : World G) :
  timestamp <$> llm_calls
    (egf (create_egf_with_comparisons subs now path out acc seed desc w0).2) =
  ((fun i => now + i * 1000) <$> seqZ 0 (len subs)) ++
  ((fun k => now + 100000 + k * 1000)
     <$> seqZ 0 (len (pair_indices (len subs)))) ++
  ((fun i => now + 200000 + i * 1000) <$> seqZ 0 (len (take 3 subs))).
Proof.
  destruct (run_outcome subs now path out acc seed desc w0)
    as (w' & gs & ccs & cmps & Hrun & _ & _ & Hall & He).
  rewrite Hrun. cbn [snd]. rewrite He. cbn [llm_calls].
  rewrite !fmap_app, <- !list_fmap_compose.
  assert ((fun e : Z * (Z * Z) => now + 100000 + e.1 * 1000)
            <$> enumerate (pair_indices (len subs)) = timestamp <$> ccs) as <-.
  { eapply Forall3_fmap_eq_lm; [|exact Hall].
    by intros e c cmp (sa & sb & gen & conf & _ & _ & -> & _). }
  change (timestamp ∘ (fun e : Z * Submission => grade_call now e.1 e.2))
    with (fun e : Z * Submission => now + e.1 * 1000).
  change (timestamp ∘ (fun e : Z * Submission => anchor_call now e.1 e.2))
    with (fun e : Z * Submission => now + 200000 + e.1 * 1000).
  by rewrite !(fmap_enumerate_index (fun i => _ + i * 1000)).
Qed.

(** X3.  Every grade result and every comparison is dated 500 ms after the call
    record that supports it. *)
Theorem results_dated_after_calls subs now path out acc seed desc
    (w0 : World G) :
  let e :=
    egf (create_egf_with_comparisons subs now path out acc seed desc w0).2 in
  (graded_at <$> grade_results e) ++ (compared_at <$> comparisons e) =
  (fun c => timestamp c + 500) <$> llm_calls e.
Proof.
  cbv zeta.
  destruct (run_outcome subs now path out acc seed desc w0)
    as (w' & gs & ccs & cmps & Hrun & _ & Hgs & Hall & He).
  rewrite Hrun. cbn [snd]. rewrite He.
  cbn [llm_calls grade_results comparisons].
  rewrite !fmap_app, <- !list_fmap_compose. f_equal; [|f_equal].
  - symmetry. eapply Forall2_fmap_eq; [|exact Hgs].
    intros [i sub] g (gen & dist & _ & ->). reflexivity.
  - symmetry. eapply Forall3_fmap_eq; [|exact Hall].
    intros e c cmp (sa & sb & gen & conf & _ & _ & -> & ->). reflexivity.
Qed.

(** X4.  The offsets 100000 and 200000 that separate the three groups of call
    records leave room for 100 entries each: the timestamps of the call
    records grow strictly in the order of creation exactly when there are
    at most 51 submissions. *)
Theorem call_timestamps_increasing_iff subs now path out acc seed desc
    (w0 : World G) :
  let e :=
    egf (create_egf_with_comparisons subs now path out acc seed desc w0).2 in
  increasing (timestamp <$> llm_calls e) <-> len subs <= 51.
Proof.
  cbv zeta. rewrite call_timestamps.
  assert (len (take 3 subs) <= 3) as Ht
    by (unfold len; rewrite length_take; lia).
  split.
  - intros Hinc. destruct (Z.le_gt_cases (len subs) 51) as [|Hn]; [done|].
    exfalso. pose proof (pair_indices_length (len subs)) as Hm.
    assert (0 < len (take 3 subs)) as Ht'
      by (unfold len in *; rewrite length_take; lia).
    set (L1 := (fun i => now + i * 1000) <$> seqZ 0 (len subs)) in *.
    set (L2 := (fun k => now + 100000 + k * 1000)
                 <$> seqZ 0 (len (pair_indices (len subs)))) in *.
    set (L3 := (fun i => now + 200000 + i * 1000)
                 <$> seqZ 0 (len (take 3 subs))) in *.
    assert (L2 !! 100%nat = Some (now + 200000)) as HL2.
    { unfold L2. rewrite list_lookup_fmap, lookup_seqZ_lt by lia.
      cbn. f_equal. lia. }
    assert (L3 !! 0%nat = Some (now + 200000)) as HL3.
    { unfold L3. rewrite list_lookup_fmap, lookup_seqZ_lt by lia.
      cbn. f_equal. lia. }
    pose proof (lookup_lt_Some _ _ _ HL2) as Hlen.
    apply (Z.lt_irrefl (now + 200000)).
    apply (Hinc (length L1 + 100)%nat (length L1 + length L2 + 0)%nat);
      [lia|by apply lookup_app3_mid|by apply lookup_app3_last].
  - intros Hn.
    assert (len (pair_indices (len subs)) <= 99) as Hm.
    { destruct (Z.le_gt_cases 2 (len subs)).
      - rewrite pair_indices_length by done. lia.
      - rewrite pair_indices_small by lia. unfold len. cbn. lia. }
    apply increasing_app; [apply increasing_affine| |].
    + apply increasing_app; [apply increasing_affine..|].
      intros x y Hx%elem_of_affine Hy%elem_of_affine. lia.
    + intros x y Hx%elem_of_affine Hy. apply elem_of_app in Hy as [Hy|Hy];
        apply elem_of_affine in Hy; lia.
Qed.

End Timestamps.

(** ** A run and the state before it *)

Section PriorState.
Context {G : Type} `{RandomSource G}.
Implicit Types (w : World G).

Lemma egf_ext (e1 e2 : EGF) :
  edf_ref e1 = edf_ref e2 -> egf_description e1 = egf_description e2 ->
  llm_calls e1 = llm_calls e2 -> grade_results e1 = grade_results e2 ->
  comparisons e1 = comparisons e2 -> e1 = e2.
Proof. destruct e1, e2. cbn. by intros -> -> -> -> ->. Qed.

(** The artifact of a run refers to the submission set and carries the
    description that the run was given. *)
Lemma run_artifact_ref subs now path out acc seed desc w :
  edf_ref (egf (create_egf_with_comparisons subs now path out acc seed desc
                  w).2) = path /\
  egf_description
    (egf (create_egf_with_comparisons subs now path out acc seed desc w).2)
  = desc.
Proof.
  destruct (run_outcome subs now path out acc seed desc w)
    as (w' & ? & ? & ? & Hrun & _ & _ & _ & He).
  rewrite Hrun. cbn [snd]. by rewrite He.
Qed.

(** Every run restarts from the same generator state, counter and empty
    collections. *)
Lemma restart subs now path1 out1 desc1 path2 out2 desc2 acc seed
    (w1 w2 : World G) :
  let r1 :=
    create_egf_with_comparisons subs now path1 out1 acc seed desc1 w1 in
  let r2 :=
    create_egf_with_comparisons subs now path2 out2 acc seed desc2 w2 in
  r1.1 = r2.1 /\
  rng r1.2 = rng r2.2 /\
  comparison_count r1.2 = comparison_count r2.2 /\
  llm_calls (egf r1.2) = llm_calls (egf r2.2) /\
  grade_results (egf r1.2) = grade_results (egf r2.2) /\
  comparisons (egf r1.2) = comparisons (egf r2.2).
Proof.
  cbv zeta.
  pose proof (two_runs 0 subs now path2 out2 desc2 path1 out1 desc1 acc seed
                w2 w1) as (Hr & Hg & Hc & Hl & Hgs & Hm).
  rewrite Z.add_0_r in *.
  rewrite shift_call_0 in Hl. rewrite shift_grade_0 in Hgs.
  rewrite shift_comparison_0 in Hm. by repeat split.
Qed.

(** X5.  The outcome of a run, its artifact, the final generator state and the
    final counter do not depend on the state in which the run starts:
    not on earlier draws from the [random] module, nor on an earlier
    artifact or counter. *)
Theorem run_independent_of_prior_state subs now path out acc seed desc
    (w1 w2 : World G) :
  let r1 := create_egf_with_comparisons subs now path out acc seed desc w1 in
  let r2 := create_egf_with_comparisons subs now path out acc seed desc w2 in
  r1.1 = r2.1 /\
  egf r1.2 = egf r2.2 /\
  rng r1.2 = rng r2.2 /\
  comparison_count r1.2 = comparison_count r2.2.
Proof.
  cbv zeta.
  destruct (restart subs now path out desc path out desc acc seed w1 w2)
    as (Hr & Hg & Hc & Hl & Hgs & Hm).
  destruct (run_artifact_ref subs now path out acc seed desc w1)
    as [Hp1 Hd1].
  destruct (run_artifact_ref subs now path out acc seed desc w2)
    as [Hp2 Hd2].
  split; [exact Hr|]. split; [|by split].
  apply egf_ext; [by rewrite Hp1, Hp2|by rewrite Hd1, Hd2|done..].
Qed.

End PriorState.

(** ** The entry point *)

Section Main.
Context {G : Type} `{RandomSource G}.
Implicit Types (w : World G).

(** X6.  [main] completes exactly when both calls read at least three
    submissions.  When the first call raises, the second is not started.
    Otherwise the second call ends as it would have ended alone, with the
    same artifact and generator state: nothing of the first run carries
    over.  When only the second call raises, the file of the first call
    is the last one saved; when both complete, the file of the second
    is. *)
Theorem main_outcome subs1 subs2 now1 now2 w0 :
  let first :=
    create_egf_with_comparisons (G := G) subs1 now1
      "d/nathan_low_quality_sec_a.edf" "d/comparisons_80pct.egf" 0.8 42
      "Grading with 80% comparison accuracy" in
  let second :=
    create_egf_with_comparisons (G := G) subs2 now2
      "d/nathan_low_quality_sec_a.edf" "d/comparisons_65pct.egf" 0.65 123
      "Grading with 65% comparison accuracy" in
  let r := main subs1 subs2 now1 now2 w0 in
  (r.1 = inr tt <-> 3 <= len subs1 /\ 3 <= len subs2) /\
  (len subs1 < 3 -> r = first w0) /\
  (3 <= len subs1 ->
     r.1 = (second w0).1 /\
     egf r.2 = egf (second w0).2 /\
     rng r.2 = rng (second w0).2) /\
  (3 <= len subs1 -> len subs2 < 3 ->
     saved r.2 = Some ("d/comparisons_80pct.egf", egf (first w0).2)) /\
  (3 <= len subs1 -> 3 <= len subs2 ->
     saved r.2 = Some ("d/comparisons_65pct.egf", egf r.2)).
Proof.
  cbv zeta. unfold main. cbv zeta. rewrite bind_unfold.
  destruct (run_outcome subs1 now1 "d/nathan_low_quality_sec_a.edf"
              "d/comparisons_80pct.egf" 0.8 42
              "Grading with 80% comparison accuracy" w0)
    as (w1 & gs1 & ccs1 & cmps1 & Hrun1 & Hs1 & _ & _ & _).
  rewrite Hrun1. cbn [fst snd].
  destruct (Z.leb_spec 3 (len subs1)) as [Hn1|Hn1].
  - destruct (run_outcome subs2 now2 "d/nathan_low_quality_sec_a.edf"
                "d/comparisons_65pct.egf" 0.65 123
                "Grading with 65% comparison accuracy" w1)
      as (w2 & gs2 & ccs2 & cmps2 & Hrun2 & Hs2 & _ & _ & _).
    destruct (restart subs2 now2
                "d/nathan_low_quality_sec_a.edf" "d/comparisons_65pct.egf"
                "Grading with 65% comparison accuracy"
                "d/nathan_low_quality_sec_a.edf" "d/comparisons_65pct.egf"
                "Grading with 65% comparison accuracy" 0.65 123 w1 w0)
      as (Hr & Hg & _ & Hl & Hgs & Hm).
    pose proof (egf_ext _ _
                  (eq_trans (proj1 (run_artifact_ref _ _ _ _ _ _ _ w1))
                     (eq_sym (proj1 (run_artifact_ref _ _ _ _ _ _ _ w0))))
                  (eq_trans (proj2 (run_artifact_ref _ _ _ _ _ _ _ w1))
                     (eq_sym (proj2 (run_artifact_ref _ _ _ _ _ _ _ w0))))
                  Hl Hgs Hm) as He.
    clear Hl Hgs Hm.
    rewrite Hrun2 in *. cbn [fst snd] in *.
    split; [|split; [lia|split; [done|]]].
    + destruct (Z.leb_spec 3 (len subs2)); split; (done || lia).
    + split; intros _ Hn2.
      * rewrite (proj2 (Z.leb_gt 3 (len subs2))) in Hs2 by lia.
        by rewrite Hs2, Hs1.
      * by rewrite (proj2 (Z.leb_le 3 (len subs2))) in Hs2 by lia.
  - split; [split; [done|lia]|]. split; [done|]. repeat split; lia.
Qed.

End Main.

Lemma main_outcome_witness :
  (3 <= len Scenario.submissions /\ len (take 2 Scenario.submissions) < 3) /\
  saved (main (G := Z) Scenario.submissions (take 2 Scenario.submissions)
           0 5000 Scenario.fresh).2 =
    Some ("d/comparisons_80pct.egf",
          egf (Scenario.run Scenario.submissions 0 0.8).2).
Proof.
  split; [split; [vm_compute; discriminate|reflexivity]|].
  pose proof (main_outcome (G := Z) Scenario.submissions
                (take 2 Scenario.submissions) 0 5000 Scenario.fresh)
    as (_ & _ & _ & Hfirst & _).
  apply Hfirst; [vm_compute; discriminate|reflexivity].
Defined.

(** ** The pair comparisons of a run *)

Lemma float_nonneg_not_neg (r : float) :
  (0 <=? r)%float = true -> (r <? 0)%float = false.
Proof.
  rewrite leb_spec, ltb_spec. change (Prim2SF 0) with (S754_zero false).
  destruct (Prim2SF r) as [s|s| |s m e]; try destruct s; cbn; congruence.
Qed.

Section PairComparisons.
Context {G : Type} `{RandomSource G}.
Implicit Types (w : World G).

(** The comparisons of the artifact are the comparisons of the index
    pairs, in order, followed by the anchors. *)
Lemma pair_comparisons subs now path out acc seed desc w0 :
  exists cmps,
    comparisons
      (egf (create_egf_with_comparisons subs now path out acc seed desc w0).2)
    = cmps ++ ((fun e => anchor_comparison now e.1 e.2)
                 <$> enumerate (take 3 subs)) /\
    Forall2 (fun ij c => exists sa sb (gen : G),
               subs !! Z.to_nat ij.1 = Some sa /\
               subs !! Z.to_nat ij.2 = Some sb /\
               submission_a c = sub_id sa /\
               submission_b c = sub_id sb /\
               winner c =
                 (pick_winner (sub_grade sa) (sub_grade sb) acc gen).1)
      (pair_indices (len subs)) cmps.
Proof.
  destruct (run_outcome subs now path out acc seed desc w0)
    as (w' & gs & ccs & cmps & Hrun & _ & _ & Hall & He).
  exists cmps. rewrite Hrun. cbn [snd]. rewrite He. split; [done|].
  apply (Forall2_enumerate
    (fun e c => exists sa sb (gen : G),
       subs !! Z.to_nat (e.2).1 = Some sa /\
       subs !! Z.to_nat (e.2).2 = Some sb /\
       submission_a c = sub_id sa /\ submission_b c = sub_id sb /\
       winner c = (pick_winner (sub_grade sa) (sub_grade sb) acc gen).1)).
  { intros k ij c Hc. exact Hc. }
  eapply Forall3_Forall2_lr; [|exact Hall].
  intros e c cmp (sa & sb & gen & conf & Ha & Hb & -> & ->).
  by exists sa, sb, gen.
Qed.

End PairComparisons.

Section ExtremeAccuracy.
Context {G : Type} `{RandomSourceSpec G}.
Implicit Types (w : World G).

Lemma pick_winner_always (grade_a grade_b : Z) (g : G) :
  (grade_a > grade_b -> (pick_winner grade_a grade_b 1 g).1 = "a") /\
  (grade_a < grade_b -> (pick_winner grade_a grade_b 1 g).1 = "b").
Proof.
  unfold pick_winner. split; intros Hg.
  - rewrite (proj2 (Z.ltb_lt 0 (grade_a - grade_b))) by lia.
    pose proof (rs_random_range g) as [_ Hr].
    destruct (rs_random g) as [r g']. cbn [fst] in *. by rewrite Hr.
  - rewrite (proj2 (Z.ltb_ge 0 (grade_a - grade_b))) by lia.
    rewrite (proj2 (Z.ltb_lt (grade_a - grade_b) 0)) by lia.
    pose proof (rs_random_range g) as [_ Hr].
    destruct (rs_random g) as [r g']. cbn [fst] in *. by rewrite Hr.
Qed.

Lemma pick_winner_never (grade_a grade_b : Z) (g : G) :
  (grade_a > grade_b -> (pick_winner grade_a grade_b 0 g).1 = "b") /\
  (grade_a < grade_b -> (pick_winner grade_a grade_b 0 g).1 = "a").
Proof.
  unfold pick_winner. split; intros Hg.
  - rewrite (proj2 (Z.ltb_lt 0 (grade_a - grade_b))) by lia.
    pose proof (rs_random_range g) as [Hr%float_nonneg_not_neg _].
    destruct (rs_random g) as [r g']. cbn [fst] in *. by rewrite Hr.
  - rewrite (proj2 (Z.ltb_ge 0 (grade_a - grade_b))) by lia.
    rewrite (proj2 (Z.ltb_lt (grade_a - grade_b) 0)) by lia.
    pose proof (rs_random_range g) as [Hr%float_nonneg_not_neg _].
    destruct (rs_random g) as [r g']. cbn [fst] in *. by rewrite Hr.
Qed.

(** X7.  At the two ends of the accuracy range nothing is left to chance for
    pairs with different ground-truth grades: with accuracy 1.0 every
    such pair comparison of a run is won by the submission with the higher
    grade, with accuracy 0.0 by the one with the lower grade. *)
Theorem extreme_accuracy subs now path out seed desc w0 :
  (exists cmps,
     comparisons
       (egf (create_egf_with_comparisons subs now path out 1 seed desc w0).2)
     = cmps ++ ((fun e => anchor_comparison now e.1 e.2)
                  <$> enumerate (take 3 subs)) /\
     Forall2 (fun ij c => exists sa sb,
                subs !! Z.to_nat ij.1 = Some sa /\
                subs !! Z.to_nat ij.2 = Some sb /\
                (sub_grade sa > sub_grade sb -> winner c = "a") /\
                (sub_grade sa < sub_grade sb -> winner c = "b"))
       (pair_indices (len subs)) cmps) /\
  (exists cmps,
     comparisons
       (egf (create_egf_with_comparisons subs now path out 0 seed desc w0).2)
     = cmps ++ ((fun e => anchor_comparison now e.1 e.2)
                  <$> enumerate (take 3 subs)) /\
     Forall2 (fun ij c => exists sa sb,
                subs !! Z.to_nat ij.1 = Some sa /\
                subs !! Z.to_nat ij.2 = Some sb /\
                (sub_grade sa > sub_grade sb -> winner c = "b") /\
                (sub_grade sa < sub_grade sb -> winner c = "a"))
       (pair_indices (len subs)) cmps).
Proof.
  split.
  - destruct (pair_comparisons subs now path out 1 seed desc w0)
      as (cmps & Hc & Hall).
    exists cmps. split; [done|]. eapply Forall2_impl; [exact Hall|].
    intros ij c (sa & sb & gen & Ha & Hb & _ & _ & ->).
    exists sa, sb. split; [done|]. split; [done|]. apply pick_winner_always.
  - destruct (pair_comparisons subs now path out 0 seed desc w0)
      as (cmps & Hc & Hall).
    exists cmps. split; [done|]. eapply Forall2_impl; [exact Hall|].
    intros ij c (sa & sb & gen & Ha & Hb & _ & _ & ->).
    exists sa, sb. split; [done|]. split; [done|]. apply pick_winner_never.
Qed.

End ExtremeAccuracy.

Lemma extreme_accuracy_witness :
  exists cmps,
    comparisons
      (egf (create_egf_with_comparisons (G := Z) Scenario.submissions 0
              "in.edf" "out.egf" 1 42 "d" Scenario.fresh).2)
    = cmps ++ ((fun e => anchor_comparison 0 e.1 e.2)
                 <$> enumerate (take 3 Scenario.submissions)) /\
    Forall2 (fun ij c => exists sa sb,
               Scenario.submissions !! Z.to_nat ij.1 = Some sa /\
               Scenario.submissions !! Z.to_nat ij.2 = Some sb /\
               (sub_grade sa > sub_grade sb -> winner c = "a") /\
               (sub_grade sa < sub_grade sb -> winner c = "b"))
      (pair_indices (len Scenario.submissions)) cmps.
Proof.
  exact (proj1 (extreme_accuracy (G := Z) Scenario.submissions 0
                  "in.edf" "out.egf" 42 "d" Scenario.fresh)).
Defined.

(** ** The accuracy and the seed as arguments *)





Section Inputs.
Context {G : Type} `{RandomSourceSpec G}.
Implicit Types (w : World G).







End Inputs.


(** ** Invariants of the artifact *)

Section Keeps.
Context {G : Type} `{RandomSource G}.
Implicit Types (w : World G) (E : EGF -> Prop).

Lemma keeps_ret E {A} (a : A) (V : A -> Prop) :
  V a -> keeps (G := G) E (mret a) V.
Proof. intros Hv w He. split; [done|]. by intros a' [= <-]. Qed.

Lemma keeps_bind E {A B} (m : M G A) (f : A -> M G B) (V : A -> Prop)
    (V' : B -> Prop) :
  keeps E m V -> (forall a, V a -> keeps E (f a) V') -> keeps E (m ≫= f) V'.
Proof.
  intros Hm Hf w He. destruct (Hm w He) as [He' Hv]. rewrite bind_unfold.
  destruct (m w) as [[e|a] w1]; cbn [fst snd] in *; [by split|].
  by apply Hf; [apply Hv|].
Qed.

Lemma keeps_for_each E {A} (l : list A) (body : A -> M G unit) :
  (forall x, keeps E (body x) (fun _ => True)) ->
  keeps E (for_each l body) (fun _ => True).
Proof.
  intros Hb. induction l as [|x l IH]; [by apply keeps_ret|].
  cbn [for_each]. eapply keeps_bind; [apply Hb|]. intros _ _. apply IH.
Qed.

Lemma keeps_lift E {A} (r : exn + A) :
  keeps (G := G) E (lift r) (fun _ => True).
Proof. intros w He. by split. Qed.

Lemma keeps_gets E {A} (f : World G -> A) : keeps E (gets f) (fun _ => True).
Proof. intros w He. by split. Qed.

Lemma keeps_draw E {A} (f : G -> A * G) :
  keeps E (draw f) (fun a => exists g, a = (f g).1).
Proof.
  intros w He. unfold draw. destruct (f (rng w)) as [a g'] eqn:Hf.
  split; [done|]. intros a' [= <-]. exists (rng w). by rewrite Hf.
Qed.

Lemma keeps_modify E (f : World G -> World G) :
  (forall w, E (egf w) -> E (egf (f w))) -> keeps E (modify f) (fun _ => True).
Proof. intros Hf w He. split; [by apply Hf|done]. Qed.

(** The frame of a run: a property of the artifact that holds of the
    empty artifact and that every addition of the run keeps holds of the
    artifact at the end, whether the run completes or raises. *)
Lemma create_keeps E subs now path out acc seed desc w :
  E (reference_edf path desc) ->
  (forall c e, E e -> E (egf_add_llm_call c e)) ->
  (forall g e, E e -> E (egf_add_grade_result g e)) ->
  (forall i sub e, E e -> E (egf_add_comparison (anchor_comparison now i sub) e)) ->
  (forall k sa sb ga gb (g g' : G) e,
     E e ->
     E (egf_add_comparison
          (comparison_record now k sa sb (pick_winner ga gb acc g).1
             (rs_uniform 0.6 0.95 g').1) e)) ->
  E (egf (create_egf_with_comparisons subs now path out acc seed desc w).2).
Proof.
  intros Href Hcall Hgrade Hanchor Hcmp.
  assert (forall c, keeps (G := G) E (add_llm_call c) (fun _ => True)) as Kcall.
  { intros c. apply keeps_modify. intros w1. apply Hcall. }
  assert (keeps E
            (create_egf_with_comparisons subs now path out acc seed desc)
            (fun _ => True)) as Hk.
  { unfold create_egf_with_comparisons.
    eapply keeps_bind; [by apply keeps_modify|]. intros _ _.
    eapply keeps_bind; [by apply keeps_modify|]. intros _ _.
    eapply keeps_bind.
    { apply keeps_for_each. intros [i sub]. unfold grade_body.
      eapply keeps_bind; [apply Kcall|]. intros _ _.
      eapply keeps_bind; [apply keeps_draw|]. intros noise _.
      eapply keeps_bind; [apply keeps_lift|]. intros dist _.
      apply keeps_modify. intros w1. apply Hgrade. }
    intros _ _. eapply keeps_bind; [by apply keeps_modify|]. intros _ _.
    eapply keeps_bind.
    { apply keeps_for_each. intros i. apply keeps_for_each. intros j.
      unfold compare_body.
      eapply keeps_bind; [apply keeps_lift|]. intros sa _.
      eapply keeps_bind; [apply keeps_lift|]. intros sb _.
      eapply keeps_bind; [apply keeps_gets|]. intros k _.
      eapply keeps_bind; [apply keeps_draw|]. intros win [g ->].
      eapply keeps_bind; [apply Kcall|]. intros _ _.
      eapply keeps_bind; [apply keeps_draw|]. intros conf [g' ->].
      eapply keeps_bind; [|intros _ _; by apply keeps_modify].
      apply keeps_modify. intros w1. apply Hcmp. }
    intros _ _. eapply keeps_bind.
    { apply keeps_for_each. intros i. unfold anchor_body.
      eapply keeps_bind; [apply keeps_lift|]. intros sub _.
      eapply keeps_bind; [apply Kcall|]. intros _ _.
      apply keeps_modify. intros w1. apply Hanchor. }
    intros _ _. by apply keeps_modify. }
  change (create_egf_with_comparisons subs now path out acc seed desc w)
    with (create_egf_with_comparisons subs now path out acc seed desc
            (set_egf (reference_edf path desc) w)).
  by apply Hk.
Qed.

End Keeps.

Section Winners.
Context {G : Type} `{RandomSourceSpec G}.

Lemma pick_winner_side (grade_a grade_b : Z) (acc : float) (g : G) :
  (pick_winner grade_a grade_b acc g).1 = "a" \/
  (pick_winner grade_a grade_b acc g).1 = "b".
Proof.
  unfold pick_winner.
  destruct (0 <? grade_a - grade_b); [|destruct (grade_a - grade_b <? 0)].
  - destruct (rs_random g) as [r g']. cbn.
    destruct (r <? acc)%float; auto.
  - destruct (rs_random g) as [r g']. cbn.
    destruct (r <? acc)%float; auto.
  - pose proof (rs_choice_elem "a" ["b"] g) as Hc.
    destruct (rs_choice "a" ["b"] g) as [c g1]. cbn [fst] in Hc.
    destruct (rs_random g1) as [r g']. cbn [fst].
    apply elem_of_cons in Hc as [->|Hc%list_elem_of_singleton]; subst;
      destruct (r <? acc)%float; auto.
Qed.

(** X8.  The winner of every comparison of the artifact, anchors included, is
    one of the two symbols "a" and "b", whether the run completes or
    raises. *)
Theorem winners_valid subs now path out acc seed desc (w0 : World G) :
  Forall (fun c => winner c = "a" \/ winner c = "b")
    (comparisons
       (egf (create_egf_with_comparisons subs now path out acc seed desc
               w0).2)).
Proof.
  apply (create_keeps
    (fun e => Forall (fun c => winner c = "a" \/ winner c = "b")
                (comparisons e))).
  - constructor.
  - by intros c e He.
  - by intros g e He.
  - intros i sub e He. apply Forall_app. split; [done|].
    apply Forall_singleton. by left.
  - intros k sa sb ga gb g g' e He. apply Forall_app. split; [done|].
    apply Forall_singleton. apply pick_winner_side.
Qed.

End Winners.

Lemma winners_valid_witness :
  Forall (fun c => winner c = "a" \/ winner c = "b")
    (comparisons (egf (Scenario.run Scenario.submissions 0 0.8).2)).
Proof.
  exact (winners_valid (G := Z) Scenario.submissions 0
           "d/nathan_low_quality_sec_a.edf" "d/comparisons_80pct.egf" 0.8 42
           "Grading with 80% comparison accuracy" Scenario.fresh).
Defined.

Section Confidence.
Context {G : Type} `{RandomSource G}.

(** X9.  When [random.uniform(0.6, 0.95)] keeps to its documented range, the
    confidence of every comparison of the artifact, anchors included,
    lies between 0.6 and 0.95. *)
Theorem confidences_in_range subs now path out acc seed desc (w0 : World G) :
  (forall g : G,
     (0.6 <=? (rs_uniform 0.6 0.95 g).1)%float = true /\
     ((rs_uniform 0.6 0.95 g).1 <=? 0.95)%float = true) ->
  Forall (fun c => (0.6 <=? confidence c)%float = true /\
                   (confidence c <=? 0.95)%float = true)
    (comparisons
       (egf (create_egf_with_comparisons subs now path out acc seed desc
               w0).2)).
Proof.
  intros Hu.
  apply (create_keeps
    (fun e => Forall (fun c => (0.6 <=? confidence c)%float = true /\
                               (confidence c <=? 0.95)%float = true)
                (comparisons e))).
  - constructor.
  - by intros c e He.
  - by intros g e He.
  - intros i sub e He. apply Forall_app. split; [done|].
    apply Forall_singleton. split; vm_compute; reflexivity.
  - intros k sa sb ga gb g g' e He. apply Forall_app. split; [done|].
    apply Forall_singleton. apply Hu.
Qed.

End Confidence.

Lemma Lcg_uniform_range (g : Z) :
  (0.6 <=? (rs_uniform 0.6 0.95 g).1)%float = true /\
  ((rs_uniform 0.6 0.95 g).1 <=? 0.95)%float = true.
Proof.
  change ((0.6 <=? (Lcg.uniform 0.6 0.95 g).1)%float = true /\
          ((Lcg.uniform 0.6 0.95 g).1 <=? 0.95)%float = true).
  unfold Lcg.uniform, Lcg.random.
  pose proof (Z.mod_pos_bound (Lcg.bits (Lcg.next g)) 10) as Hm.
  assert (Z.to_nat (Lcg.bits (Lcg.next g) mod 10) < 10)%nat as Hk by lia.
  revert Hk. generalize (Z.to_nat (Lcg.bits (Lcg.next g) mod 10)) as k.
  intros k Hk.
  do 10 (destruct k as [|k]; [split; vm_compute; reflexivity|]). lia.
Qed.

Lemma confidences_in_range_witness :
  Forall (fun c => (0.6 <=? confidence c)%float = true /\
                   (confidence c <=? 0.95)%float = true)
    (comparisons (egf (Scenario.run Scenario.submissions 0 0.8).2)).
Proof.
  apply (confidences_in_range (G := Z) Scenario.submissions 0
           "d/nathan_low_quality_sec_a.edf" "d/comparisons_80pct.egf" 0.8 42
           "Grading with 80% comparison accuracy" Scenario.fresh).
  exact Lcg_uniform_range.
Defined.

(** ** Which submissions meet *)

Lemma id_index_inj (subs : list Submission) (a b : nat) (sa sb : Submission) :
  NoDup (sub_id <$> subs) ->
  subs !! a = Some sa -> subs !! b = Some sb -> sub_id sa = sub_id sb -> a = b.
Proof.
  intros Hnd Ha Hb Heq. eapply (proj1 (NoDup_alt _) Hnd).
  - by rewrite list_lookup_fmap, Ha.
  - rewrite list_lookup_fmap, Hb. cbn. by rewrite Heq.
Qed.

Section Meetings.
Context {G : Type} `{RandomSource G}.

(** X10.  When the identifiers of the submissions are pairwise distinct, no
    pair comparison of a run compares a submission with itself, no ordered
    pair of submissions is compared twice, and no pair is compared in
    both orders. *)
Theorem pairs_compared_once subs now path out acc seed desc (w0 : World G) :
  NoDup (sub_id <$> subs) ->
  exists cmps,
    comparisons
      (egf (create_egf_with_comparisons subs now path out acc seed desc w0).2)
    = cmps ++ ((fun e => anchor_comparison now e.1 e.2)
                 <$> enumerate (take 3 subs)) /\
    Forall (fun c => submission_a c <> submission_b c) cmps /\
    NoDup ((fun c => (submission_a c, submission_b c)) <$> cmps) /\
    (forall c c', c ∈ cmps -> c' ∈ cmps ->
       ~ (submission_a c = submission_b c' /\ submission_b c = submission_a c')).
Proof.
  intros Hnd.
  destruct (pair_comparisons subs now path out acc seed desc w0)
    as (cmps & Hc & Hall).
  exists cmps. split; [done|].
  assert (forall k c, cmps !! k = Some c ->
            exists i j sa sb,
              pair_indices (len subs) !! k = Some (i, j) /\
              0 <= i /\ i < j /\
              subs !! Z.to_nat i = Some sa /\ subs !! Z.to_nat j = Some sb /\
              submission_a c = sub_id sa /\ submission_b c = sub_id sb)
    as Horigin.
  { intros k c Hk.
    destruct (Forall2_lookup_r _ _ _ _ _ Hall Hk)
      as ([i j] & Hij & sa & sb & gen & Ha & Hb & Hia & Hib & _).
    pose proof (list_elem_of_lookup_2 _ _ _ Hij) as Hin.
    apply elem_of_pair_indices in Hin.
    exists i, j, sa, sb. cbn [fst snd] in *. repeat split; (done || lia). }
  split; [|split].
  - apply Forall_forall. intros c (k & Hk)%list_elem_of_lookup_1 Heq.
    destruct (Horigin k c Hk) as (i & j & sa & sb & _ & Hi & Hij & Ha & Hb
                                   & Hia & Hib).
    rewrite Hia, Hib in Heq.
    pose proof (id_index_inj _ _ _ _ _ Hnd Ha Hb Heq). lia.
  - apply NoDup_alt. intros k1 k2 p Hk1 Hk2.
    rewrite list_lookup_fmap in Hk1, Hk2.
    destruct (cmps !! k1) as [c1|] eqn:Hc1; [|done].
    destruct (cmps !! k2) as [c2|] eqn:Hc2; [|done].
    cbn in Hk1, Hk2. injection Hk1 as <-.
    destruct (Horigin k1 c1 Hc1) as (i1 & j1 & sa1 & sb1 & Hp1 & Hi1 & Hj1
                                      & Ha1 & Hb1 & Hia1 & Hib1).
    destruct (Horigin k2 c2 Hc2) as (i2 & j2 & sa2 & sb2 & Hp2 & Hi2 & Hj2
                                      & Ha2 & Hb2 & Hia2 & Hib2).
    injection Hk2 as Heqa Heqb. rewrite Hia1, Hia2 in Heqa.
    rewrite Hib1, Hib2 in Heqb.
    pose proof (id_index_inj _ _ _ _ _ Hnd Ha2 Ha1 Heqa).
    pose proof (id_index_inj _ _ _ _ _ Hnd Hb2 Hb1 Heqb).
    assert (i1 = i2 /\ j1 = j2) as [-> ->] by lia.
    eapply (proj1 (NoDup_alt _) (pair_indices_NoDup (len subs))); eauto.
  - intros c c' (k & Hk)%list_elem_of_lookup_1
      (k' & Hk')%list_elem_of_lookup_1 [Heq1 Heq2].
    destruct (Horigin k c Hk) as (i & j & sa & sb & _ & Hi & Hij & Ha & Hb
                                   & Hia & Hib).
    destruct (Horigin k' c' Hk') as (i' & j' & sa' & sb' & _ & Hi' & Hij'
                                      & Ha' & Hb' & Hia' & Hib').
    rewrite Hia, Hib' in Heq1. rewrite Hib, Hia' in Heq2.
    pose proof (id_index_inj _ _ _ _ _ Hnd Ha Hb' Heq1).
    pose proof (id_index_inj _ _ _ _ _ Hnd Hb Ha' Heq2). lia.
Qed.

End Meetings.

Lemma pairs_compared_once_witness :
  NoDup (sub_id <$> Scenario.submissions) /\
  exists cmps,
    comparisons (egf (Scenario.run Scenario.submissions 0 0.8).2)
    = cmps ++ ((fun e => anchor_comparison 0 e.1 e.2)
                 <$> enumerate (take 3 Scenario.submissions)) /\
    Forall (fun c => submission_a c <> submission_b c) cmps /\
    NoDup ((fun c => (submission_a c, submission_b c)) <$> cmps) /\
    (forall c c', c ∈ cmps -> c' ∈ cmps ->
       ~ (submission_a c = submission_b c' /\ submission_b c = submission_a c')).
Proof.
  assert (NoDup (sub_id <$> Scenario.submissions)) as Hnd
    by (apply (bool_decide_unpack _); vm_compute; exact I).
  split; [exact Hnd|].
  exact (pairs_compared_once (G := Z) Scenario.submissions 0
           "d/nathan_low_quality_sec_a.edf" "d/comparisons_80pct.egf" 0.8 42
           "Grading with 80% comparison accuracy" Scenario.fresh Hnd).
Defined.

Lemma elem_of_pairs_with (n i a b : Z) :
  (a, b) ∈ pairs_with n i <->
  (a = i \/ b = i) /\ 0 <= a /\ a < b /\ (b = a + 1 \/ b = a + 2) /\ b < n.
Proof.
  unfold pairs_with. by rewrite list_elem_of_filter, elem_of_pair_indices.
Qed.

Lemma pairs_with_NoDup (n i : Z) : NoDup (pairs_with n i).
Proof. apply NoDup_filter, pair_indices_NoDup. Qed.

Lemma pairs_with_at_most (n i : Z) : len (pairs_with n i) <= 4.
Proof.
  assert (pairs_with n i ⊆+ [(i - 2, i); (i - 1, i); (i, i + 1); (i, i + 2)])
    as Hsub.
  { apply NoDup_submseteq; [apply pairs_with_NoDup|].
    intros [a b] Hin%elem_of_pairs_with. rewrite !elem_of_cons.
    destruct Hin as ([->| ->] & _ & _ & [->|Hb] & _).
    - right. right. by left.
    - subst b. do 3 right. by left.
    - right. left. f_equal. lia.
    - left. f_equal. lia. }
  apply submseteq_length in Hsub. unfold len. cbn [length] in Hsub. lia.
Qed.

Lemma two_members_length (l : list (Z * Z)) (p q : Z * Z) :
  p <> q -> p ∈ l -> q ∈ l -> 2 <= len l.
Proof.
  intros Hne Hp Hq. assert ([p; q] ⊆+ l) as Hsub.
  { apply NoDup_submseteq.
    - apply NoDup_cons. split; [|apply NoDup_singleton].
      by intros ->%list_elem_of_singleton.
    - intros x [->|[->|[]%elem_of_nil]%elem_of_cons]%elem_of_cons; done. }
  apply submseteq_length in Hsub. unfold len. cbn [length] in Hsub. lia.
Qed.

Lemma pairs_with_at_least (n i : Z) :
  3 <= n -> 0 <= i < n -> 2 <= len (pairs_with n i).
Proof.
  intros Hn Hi.
  destruct (Z.lt_ge_cases (i + 2) n) as [Hlt|Hge];
    [|destruct (Z.eq_dec i (n - 1)) as [->|Hne]].
  - apply (two_members_length _ (i, i + 1) (i, i + 2));
      [intros [=]; lia|apply elem_of_pairs_with; lia..].
  - apply (two_members_length _ (n - 1 - 2, n - 1) (n - 1 - 1, n - 1));
      [intros [=]; lia|apply elem_of_pairs_with; lia..].
  - apply (two_members_length _ (i - 1, i) (i, i + 1));
      [intros [=]; lia|apply elem_of_pairs_with; lia..].
Qed.

Lemma pairs_with_inner (n i : Z) :
  2 <= i < n - 2 -> len (pairs_with n i) = 4.
Proof.
  intros Hi.
  assert (pairs_with n i ≡ₚ [(i - 2, i); (i - 1, i); (i, i + 1); (i, i + 2)])
    as Hp.
  { apply NoDup_Permutation; [apply pairs_with_NoDup| |].
    - repeat (apply NoDup_cons; split;
              [rewrite ?elem_of_cons, ?elem_of_nil; intros Hin;
               repeat destruct Hin as [Hin|Hin]; try done;
               injection Hin; lia|]).
      apply NoDup_nil_2.
    - intros [a b]. rewrite elem_of_pairs_with, !elem_of_cons, elem_of_nil.
      split.
      + intros ([->| ->] & _ & _ & [->|Hb] & _).
        * right. right. by left.
        * subst b. do 3 right. by left.
        * right. left. f_equal. lia.
        * left. f_equal. lia.
      + intros [Heq|[Heq|[Heq|[Heq|[]]]]]; injection Heq as -> ->; lia. }
  unfold len. by rewrite Hp.
Qed.

Section Participation.
Context {G : Type} `{RandomSource G}.

(** X11.  The pair comparisons of a run are the comparisons of the index pairs
    of the nested loops; among these, from three submissions on, every
    submission takes part in at least two and at most four pairs, and
    every submission with two predecessors and two successors in exactly
    four. *)
Theorem submissions_meet_often subs now path out acc seed desc (w0 : World G) :
  let n := len subs in
  exists cmps,
    comparisons
      (egf (create_egf_with_comparisons subs now path out acc seed desc w0).2)
    = cmps ++ ((fun e => anchor_comparison now e.1 e.2)
                 <$> enumerate (take 3 subs)) /\
    Forall2 (fun ij c => exists sa sb,
               subs !! Z.to_nat ij.1 = Some sa /\
               subs !! Z.to_nat ij.2 = Some sb /\
               submission_a c = sub_id sa /\ submission_b c = sub_id sb)
      (pair_indices n) cmps /\
    (3 <= n -> forall i, 0 <= i < n -> 2 <= len (pairs_with n i) <= 4) /\
    (forall i, 2 <= i < n - 2 -> len (pairs_with n i) = 4).
Proof.
  cbv zeta.
  destruct (pair_comparisons subs now path out acc seed desc w0)
    as (cmps & Hc & Hall).
  exists cmps. split; [done|]. split; [|split].
  - eapply Forall2_impl; [exact Hall|].
    intros ij c (sa & sb & gen & Ha & Hb & Hia & Hib & _). by exists sa, sb.
  - intros Hn i Hi. split; [by apply pairs_with_at_least|].
    apply pairs_with_at_most.
  - intros i Hi. by apply pairs_with_inner.
Qed.

End Participation.

Lemma submissions_meet_often_witness :
  (3 <= len Scenario.submissions /\ 0 <= 9 < len Scenario.submissions) /\
  2 <= len (pairs_with (len Scenario.submissions) 9) <= 4.
Proof.
  split; [split; [vm_compute; discriminate|split; vm_compute; [discriminate|reflexivity]]|].
  destruct (submissions_meet_often (G := Z) Scenario.submissions 0
              "d/nathan_low_quality_sec_a.edf" "d/comparisons_80pct.egf"
              0.8 42 "Grading with 80% comparison accuracy" Scenario.fresh)
    as (cmps & _ & _ & Hmeet & _).
  apply Hmeet; [vm_compute; discriminate|].
  split; vm_compute; [discriminate|reflexivity].
Defined.

(** ** What the random draws do not touch *)



Section Frame.
Context {G : Type} `{RandomSource G}.


End Frame.
